(** * noot-boter-api: the product synchronisation handlers

    A shallow embedding of the three request handlers of the repository

    - [api/update-batch-products.js]: the batch run that normalises select
      option names (module [Batch]);
    - the earlier batch run kept next to it, which looks option names up as
      they are written and falls back to raw text (module [BatchText]);
    - [api/update-single-product.js]: the single-record update (module
      [Single]);

    together with the JavaScript built-ins they rely on (module [JS]):
    strings, the two regular expressions, [Map] lookup and JSON values. *)

From Stdlib Require Import Ascii String NArith ZArith Lia.
From stdpp Require Import base option list gmap strings pretty.

Local Open Scope string_scope.

(** ** JavaScript built-ins *)

Module JS.

(** *** Code units

    A JavaScript string is a sequence of UTF-16 code units.  The model covers
    the code units below 256 (the Latin-1 range), one [ascii] each; on that
    range the character classes and case mappings below are the ones of
    ECMAScript.  Property names such as the price columns are opaque keys and
    are only ever compared for equality. *)

Definition code (c : ascii) : N := N_of_ascii c.

Definition in_range (lo hi : N) (c : ascii) : bool :=
  ((lo <=? code c) && (code c <=? hi))%N.

(** [\s] and the characters removed by [trim]: TAB, LF, VT, FF, CR, SP, NBSP. *)
Definition is_space (c : ascii) : bool :=
  in_range 9 13 c || (code c =? 32)%N || (code c =? 160)%N.

(** [\d] *)
Definition is_digit (c : ascii) : bool := in_range 48 57 c.

(** [[A-Z]] *)
Definition is_upper (c : ascii) : bool := in_range 65 90 c.

(** [[a-z]] *)
Definition is_lower (c : ascii) : bool := in_range 97 122 c.

(** [\w] (no [u] or [i] flag): [[A-Za-z0-9_]] *)
Definition is_word (c : ascii) : bool :=
  is_upper c || is_lower c || is_digit c || (code c =? 95)%N.

(** [[A-Z\s]] *)
Definition is_upper_or_space (c : ascii) : bool := is_upper c || is_space c.

(** [String.prototype.toLowerCase] on one code unit: A-Z and the Latin-1
    capitals U+00C0..U+00DE (without the multiplication sign U+00D7). *)
Definition lower_char (c : ascii) : ascii :=
  if is_upper c || (in_range 192 222 c && negb (code c =? 215)%N)
  then ascii_of_N (code c + 32) else c.

(** [String.prototype.toUpperCase] on one code unit whose capital is again
    below 256: a-z and U+00E0..U+00FE (without the division sign U+00F7).
    The capitals of U+00B5, U+00DF and U+00FF lie outside the range of the
    model; the handlers only capitalise a character matched by [\w] or the
    first character of a lower-cased [[A-Z]...] match. *)
Definition upper_char (c : ascii) : ascii :=
  if is_lower c || (in_range 224 254 c && negb (code c =? 247)%N)
  then ascii_of_N (code c - 32) else c.

(** *** Strings *)

Fixpoint toLowerCase (s : string) : string :=
  match s with
  | EmptyString => EmptyString
  | String c s' => String (lower_char c) (toLowerCase s')
  end.

(** [s.replace(/\s/g, '')] *)
Fixpoint strip_spaces (s : string) : string :=
  match s with
  | EmptyString => EmptyString
  | String c s' => if is_space c then strip_spaces s' else String c (strip_spaces s')
  end.

Fixpoint trim_start (l : list ascii) : list ascii :=
  match l with
  | c :: l' => if is_space c then trim_start l' else l
  | [] => []
  end.

(** [String.prototype.trim] *)
Definition trim_list (l : list ascii) : list ascii :=
  rev (trim_start (rev (trim_start l))).

Definition trim (s : string) : string :=
  string_of_list_ascii (trim_list (list_ascii_of_string s)).

(** [String.prototype.includes] *)
Fixpoint includes (s sub : string) : bool :=
  String.prefix sub s ||
  match s with
  | EmptyString => false
  | String _ s' => includes s' sub
  end.

(** [s.replace(/^\w/, c => c.toUpperCase())]: without the [g] and [m] flags
    the pattern can only match the first character. *)
Definition capitalize_word_start (s : string) : string :=
  match s with
  | String c s' => if is_word c then String (upper_char c) s' else s
  | EmptyString => EmptyString
  end.

(** [s.charAt(0).toUpperCase() + s.slice(1)] *)
Definition capitalize_first (s : string) : string :=
  match s with
  | String c s' => String (upper_char c) s'
  | EmptyString => EmptyString
  end.

(** *** Regular expressions

    A backtracking matcher for the fragment the handlers use: literal
    characters, character classes, sequence, alternation, greedy [*] and [+]
    over a class, the assertions [\b] and [$], and one capturing group. *)

Inductive regex : Type :=
  | RChar (c : ascii)
  | RClass (p : ascii → bool)
  | RSeq (r1 r2 : regex)
  | RAlt (r1 r2 : regex)
  | RStar (p : ascii → bool)
  | RPlus (p : ascii → bool)
  | RWordB
  | REnd
  | RGroup (r : regex).

(** The matcher's position: the text before it (nearest character first),
    the text after it, the number of characters matched so far and the
    capture of the group. *)
Record mstate : Type := MState {
  before : list ascii;
  after : list ascii;
  consumed : nat;
  capture : option (list ascii)
}.

Definition word_at (o : option ascii) : bool :=
  match o with Some c => is_word c | None => false end.

Definition at_word_boundary (st : mstate) : bool :=
  xorb (word_at (head (before st))) (word_at (head (after st))).

Section matcher.
Context {A : Type}.

(** Greedy repetition of a class: take one more character when possible,
    and fall back to stopping here when the rest of the pattern fails. *)
Fixpoint star (p : ascii → bool) (bef aft : list ascii) (n : nat)
    (cap : option (list ascii)) (k : mstate → option A) : option A :=
  match aft with
  | c :: rest =>
      if p c then
        match star p (c :: bef) rest (S n) cap k with
        | Some a => Some a
        | None => k (MState bef aft n cap)
        end
      else k (MState bef aft n cap)
  | [] => k (MState bef [] n cap)
  end.

Definition step_class (p : ascii → bool) (st : mstate)
    (k : mstate → option A) : option A :=
  match after st with
  | c :: rest =>
      if p c then k (MState (c :: before st) rest (S (consumed st)) (capture st))
      else None
  | [] => None
  end.

Fixpoint rmatch (r : regex) (st : mstate) (k : mstate → option A) : option A :=
  match r with
  | RChar c => step_class (Ascii.eqb c) st k
  | RClass p => step_class p st k
  | RSeq r1 r2 => rmatch r1 st (λ st', rmatch r2 st' k)
  | RAlt r1 r2 =>
      match rmatch r1 st k with
      | Some a => Some a
      | None => rmatch r2 st k
      end
  | RStar p => star p (before st) (after st) (consumed st) (capture st) k
  | RPlus p =>
      step_class p st
        (λ st', star p (before st') (after st') (consumed st') (capture st') k)
  | RWordB => if at_word_boundary st then k st else None
  | REnd => match after st with [] => k st | _ :: _ => None end
  | RGroup r' =>
      rmatch r' st (λ st',
        k (MState (before st') (after st') (consumed st')
             (Some (take (consumed st' - consumed st) (after st)))))
  end.
End matcher.

(** One match attempt at a fixed position: the matched text and the capture. *)
Definition exec_at (r : regex) (bef aft : list ascii)
    : option (list ascii * option (list ascii)) :=
  rmatch r (MState bef aft 0 None) (λ st, Some (take (consumed st) aft, capture st)).

(** Leftmost match, as [RegExp.prototype.exec] finds it. *)
Fixpoint search (r : regex) (bef aft : list ascii)
    : option (list ascii * option (list ascii)) :=
  match aft with
  | [] => exec_at r bef []
  | c :: rest =>
      match exec_at r bef aft with
      | Some m => Some m
      | None => search r (c :: bef) rest
      end
  end.

(** [s.match(re)] for a pattern without the [g] flag; the result is the pair
    of [m[0]] and [m[1]], or [None] for [null]. *)
Definition match_first (r : regex) (s : string) : option (string * option string) :=
  match search r [] (list_ascii_of_string s) with
  | Some (m, c) => Some (string_of_list_ascii m, string_of_list_ascii <$> c)
  | None => None
  end.

(** All matches from left to right.  [skip] counts the characters of the
    previous match that still lie ahead; after an empty match the search
    moves on by one character. *)
Fixpoint scan (r : regex) (bef aft : list ascii) (skip : nat) : list (list ascii) :=
  match skip, aft with
  | S n, c :: rest => scan r (c :: bef) rest n
  | S _, [] => []
  | 0, [] =>
      match exec_at r bef [] with
      | Some (m, _) => [m]
      | None => []
      end
  | 0, c :: rest =>
      match exec_at r bef aft with
      | Some (m, _) => m :: scan r (c :: bef) rest (pred (length m))
      | None => scan r (c :: bef) rest 0
      end
  end.

(** [s.match(re)] for a pattern with the [g] flag: the list of matched
    texts, or [None] for [null] when there is none. *)
Definition match_all (r : regex) (s : string) : option (list string) :=
  match scan r [] (list_ascii_of_string s) 0 with
  | [] => None
  | ms => Some (string_of_list_ascii <$> ms)
  end.

(** *** Values

    The values a JSON document can hold, and [undefined].  Numbers are only
    copied, compared and tested for truth by the handlers, and printed in
    two places (the image path and the URL of a record); they are modelled
    as the integers a double holds exactly and prints in full, those below
    [10^21] in absolute value that [JSON.parse] does not round. *)

#[local] Set Warnings "-register-all".
Inductive value : Type :=
  | VUndefined
  | VNull
  | VBool (b : bool)
  | VNum (n : Z)
  | VStr (s : string)
  | VArr (l : list value)
  | VObj (o : gmap string value).
#[local] Set Warnings "register-all".

(** [o.k] on a plain object: [undefined] when the property is absent. *)
Definition get (o : gmap string value) (k : string) : value :=
  default VUndefined (o !! k).

(** ToBoolean *)
Definition truthy (v : value) : bool :=
  match v with
  | VUndefined | VNull => false
  | VBool b => b
  | VNum n => negb (n =? 0)%Z
  | VStr s => negb (String.eqb s "")
  | VArr _ | VObj _ => true
  end.

(** [v === "literal"] for a [v] that is [null] ([None]) or a string. *)
Definition strict_eq (v : option string) (literal : string) : bool :=
  match v with Some s => String.eqb s literal | None => false end.

(** [a || b] *)
Definition js_or (a b : value) : value := if truthy a then a else b.

Definition nullish (v : value) : bool :=
  match v with VUndefined | VNull => true | _ => false end.

(** [v?.k] for a property [k] that no built-in prototype defines: only a
    plain object can hold it. *)
Definition opt_prop (v : value) (k : string) : value :=
  match v with VObj o => get o k | _ => VUndefined end.

(** ToString, as a template literal applies it; for a number it is the
    decimal numeral, which is what the engine prints for the integers of
    the model. *)
Fixpoint to_string (v : value) : string :=
  match v with
  | VUndefined => "undefined"
  | VNull => "null"
  | VBool b => if b then "true" else "false"
  | VNum n => pretty n
  | VStr s => s
  | VArr l =>
      String.concat ","
        (map (λ x, match x with VUndefined | VNull => "" | _ => to_string x end) l)
  | VObj _ => "[object Object]"
  end.

(** SameValueZero, the key equality of [Map].  Keys and looked-up values
    come from two different JSON documents, so two arrays or objects are
    never the same reference. *)
Definition same_value_zero (a b : value) : bool :=
  match a, b with
  | VUndefined, VUndefined | VNull, VNull => true
  | VBool x, VBool y => Bool.eqb x y
  | VNum x, VNum y => (x =? y)%Z
  | VStr x, VStr y => String.eqb x y
  | _, _ => false
  end.

(** A [Map] built by [new Map(entries)] and read by [get]: a later entry for
    a key replaces an earlier one. *)
Fixpoint map_get {V : Type} (entries : list (value * V)) (k : value) : option V :=
  match entries with
  | [] => None
  | (k', v) :: rest =>
      match map_get rest k with
      | Some v' => Some v'
      | None => if same_value_zero k' k then Some v else None
      end
  end.

(** *** Exceptions

    A thrown [Error] is represented by its [message].  The wording of a
    [TypeError] is the engine's; the texts below follow V8's, with the
    receiver written as in the source. *)

Inductive result (A : Type) : Type :=
  | Ok (a : A)
  | Throw (message : string).
Arguments Ok {A} a.
Arguments Throw {A} message.

#[export] Instance result_ret : MRet result := λ A a, Ok a.

#[export] Instance result_fmap : FMap result := λ A B f m,
  match m with
  | Ok a => Ok (f a)
  | Throw e => Throw e
  end.

#[export] Instance result_bind : MBind result := λ A B f m,
  match m with
  | Ok a => f a
  | Throw e => Throw e
  end.

(** [recv.method(...)] for a method of [String.prototype]: the receiver when
    it is a string, a [TypeError] otherwise ([expr] is the source text of the
    receiver, which the message quotes). *)
Definition string_receiver (expr method : string) (v : value) : result string :=
  match v with
  | VStr s => Ok s
  | VUndefined =>
      Throw ("Cannot read properties of undefined (reading '" +:+ method +:+ "')")
  | VNull =>
      Throw ("Cannot read properties of null (reading '" +:+ method +:+ "')")
  | _ => Throw (expr +:+ "." +:+ method +:+ " is not a function")
  end.

(** The double quote, which the engine puts around a string literal of the
    source text it quotes in a message. *)
Definition double_quote : string := String "034"%char EmptyString.

End JS.

(** ** The two patterns of the handlers *)

(** [/-\s*(z\d+|nb\d+)$/] *)
Definition variant_pattern : JS.regex :=
  JS.RSeq (JS.RChar "-")
    (JS.RSeq (JS.RStar JS.is_space)
       (JS.RSeq
          (JS.RGroup
             (JS.RAlt (JS.RSeq (JS.RChar "z") (JS.RPlus JS.is_digit))
                (JS.RSeq (JS.RChar "n") (JS.RSeq (JS.RChar "b") (JS.RPlus JS.is_digit)))))
          JS.REnd)).

(** [/\b([A-Z][A-Z\s]+)\b/g] *)
Definition allergen_pattern : JS.regex :=
  JS.RSeq JS.RWordB
    (JS.RSeq (JS.RGroup (JS.RSeq (JS.RClass JS.is_upper) (JS.RPlus JS.is_upper_or_space)))
       JS.RWordB).

(** [nameMatch ? nameMatch[1] : null] for [nameMatch =
    internalName.match(/-\s*(z\d+|nb\d+)$/)], the same two lines in the three
    handlers; [None] is [null]. *)
Definition variant_suffix (internalName : string) : option string :=
  JS.match_first variant_pattern internalName ≫= snd.

(** ** The remote database

    What the handlers receive from the Airtable API and what they send to
    it.  A response is either successful, with its parsed JSON document, or
    not, with the text of its body. *)

Module Remote.
Import JS.

Record choice : Type := Choice { choice_name : string; choice_id : string }.

Record field : Type := Field {
  field_name : string;
  field_type : string;
  field_choices : list choice
}.

Record table : Type := Table { table_name : string; table_fields : list field }.

Record record : Type := Record_ { rec_id : value; rec_fields : gmap string value }.

(** One element of the [records] array of a PATCH body. *)
Record payload : Type := Payload { pl_id : value; pl_fields : gmap string value }.

Inductive response (A : Type) : Type :=
  | Success (json : A)
  | Failed (text : string).
Arguments Success {A} json.
Arguments Failed {A} text.

(** The remote side of one run: the three documents it serves, and its
    answer to the PATCH call number [n] (counted from 0) with a given list
    of records. *)
Record world : Type := World {
  schema_response : response (list table);
  spt_response : response (list record);
  mtb_response : response (list record);
  patch_response : nat → list payload → response ()
}.

Record request : Type := Request { method : string; password : value }.

Inductive response_body : Type :=
  | ErrorBody (error : string)
  | MessageBody (message : string) (details : list string)
  | FailureBody (error : string) (details : list string).

Record http_response : Type := Http { status : nat; body : response_body }.

(** The state a run threads through: [logDetails] and the PATCH bodies
    submitted so far, oldest first. *)
Record run : Type := Run { log : list string; patches : list (list payload) }.

(** What a run leaves behind: the HTTP response and the PATCH bodies it
    submitted, in order. *)
Record outcome : Type := Outcome { reply : http_response; submitted : list (list payload) }.

Definition push (line : string) (st : run) : run :=
  Run (log st ++ [line]) (patches st).

Definition submit (batch : list payload) (st : run) : run :=
  Run (log st) (patches st ++ [batch]).

(** [a.slice(i, j)] for [0 <= i <= j] *)
Definition slice {A : Type} (i j : nat) (l : list A) : list A :=
  take (j - i) (drop i l).

(** [null] or a string, as a value. *)
Definition nullable (o : option string) : value :=
  match o with Some s => VStr s | None => VNull end.

(** The object [{ id: ... }] that selects an existing option. *)
Definition option_ref (id : string) : value := VObj {[ "id" := VStr id ]}.

(** The object [{ name: ... }] of a multiple-select entry. *)
Definition option_name (name : string) : value := VObj {[ "name" := VStr name ]}.

End Remote.

(** ** [api/update-batch-products.js] *)

Module Batch.
Import JS Remote.

Definition normalize_text (s : string) : string := toLowerCase (strip_spaces s).

(** [normalize]: [(str || '').replace(/\s/g, '').toLowerCase()] *)
Definition normalize (str : value) : result string :=
  s ← string_receiver ("(str || " +:+ double_quote +:+ double_quote +:+ ")") "replace"
        (js_or str (VStr ""));
  Ok (normalize_text s).

Definition is_select (f : field) : bool :=
  String.eqb (field_type f) "singleSelect" || String.eqb (field_type f) "multipleSelects".

(** [new Map(field.options.choices.map(choice => [normalize(choice.name),
    choice.id]))]; a choice name is a string. *)
Definition choice_map (choices : list choice) : gmap string string :=
  foldl (λ m c, <[normalize_text (choice_name c) := choice_id c]> m) ∅ choices.

Definition getSelectOptions (schema : response (list table)) (tableName : string)
    : result (gmap string (gmap string string)) :=
  match schema with
  | Failed text => Throw ("Failed to fetch base schema: " +:+ text)
  | Success tables =>
      match List.find (λ t, String.eqb (table_name t) tableName) tables with
      | None => Throw ("Table '" +:+ tableName +:+ "' not found in base schema.")
      | Some table =>
          Ok (foldl (λ optionsMap f,
                if is_select f
                then <[field_name f := choice_map (field_choices f)]> optionsMap
                else optionsMap)
              ∅ (table_fields table))
      end
  end.

(** [selectOptions.f?.has(text)] followed by [selectOptions.f.get(text)],
    for a field name [f] that [Object.prototype] does not define (the handler
    uses five: packageSize, productType, category, baseProductGroup and
    countryOfOrigin). *)
Definition lookup_option (selectOptions : gmap string (gmap string string))
    (f text : string) : option string :=
  selectOptions !! f ≫= (.!! text).

(** The variant rules, lines 91-109: the package size, the selling price
    and the weight of a variant code ([None] is [null]). *)
Definition variant_rule (variantSuffix : option string)
    (mtbRecordFields : gmap string value) : option string * value * value :=
  if strict_eq variantSuffix "z450" then
    (Some "450g Bag", get mtbRecordFields "Verkoop 450g (€/kg)", VNum 600)
  else if strict_eq variantSuffix "z1000" then
    (Some "1000g Bag", get mtbRecordFields "Verkoop 1kg (€/kg)", VNum 1250)
  else if strict_eq variantSuffix "nb175" then
    (Some "175g Jar", get mtbRecordFields "Nut Butter 175g (€/potje)", VNum 400)
  else if strict_eq variantSuffix "nb365" then
    (Some "365g Jar", get mtbRecordFields "Nut Butter 365g (€/pot)", VNum 750)
  else (None, VNull, VNull).

(** Lines 120-122: [packageSize?.includes("Bag")], [packageSize?.includes("Jar")]. *)
Definition product_type (packageSize : option string) : option string :=
  match packageSize with
  | Some s =>
      if includes s "Bag" then Some "Nut Bag"
      else if includes s "Jar" then Some "Nut Butter Jar"
      else None
  | None => None
  end.

(** Line 129: [mtbRecordFields.baseProductGroup?.name?.toLowerCase() || '']. *)
Definition group_text (mtbRecordFields : gmap string value) : result string :=
  let name := opt_prop (get mtbRecordFields "baseProductGroup") "name" in
  if nullish name then Ok ""
  else
    s ← string_receiver "mtbRecordFields.baseProductGroup?.name?" "toLowerCase" name;
    Ok (toLowerCase s).

(** Lines 130-132. *)
Definition category_of (productType : option string) (baseProductGroupText : string)
    : string :=
  if strict_eq productType "Nut Butter Jar" then "Nut Butters"
  else if includes baseProductGroupText "mix" then "Mixes"
  else "Whole Nuts".

(** Line 154: the name of one allergen match. *)
Definition allergen_name (allergen : string) : string :=
  capitalize_word_start (toLowerCase (trim allergen)).

(** Lines 151-156. *)
Definition allergens (mtbRecordFields : gmap string value) : result (list string) :=
  ingredientsText ←
    string_receiver "ingredientsText" "match" (js_or (get mtbRecordFields "Ingredients") (VStr ""));
  let allergenMatches := default [] (match_all allergen_pattern ingredientsText) in
  Ok (allergen_name <$> allergenMatches).

(** [if (selectOptions.f?.has(text)) updates.f = { id: selectOptions.f.get(text) }] *)
Definition set_option (selectOptions : gmap string (gmap string string))
    (f text : string) (updates : gmap string value) : gmap string value :=
  match lookup_option selectOptions f text with
  | Some id => <[f := option_ref id]> updates
  | None => updates
  end.

(** Lines 80-83: the master record a record of the view is joined to;
    [None] when the loop moves on to the next record. *)
Definition linked_master (mtbLookup : list (value * gmap string value))
    (sptRecord : record) : option (gmap string value) :=
  let linkedBaseId := get (rec_fields sptRecord) "linkedBaseProductId" in
  if negb (truthy linkedBaseId) then None
  else map_get mtbLookup linkedBaseId.

(** Lines 85-170: the payload of a record joined to [mtbRecordFields]. *)
Definition derive (selectOptions : gmap string (gmap string string))
    (sptRecord : record) (mtbRecordFields : gmap string value) : result payload :=
  let updates : gmap string value := ∅ in
  let internalName := get (rec_fields sptRecord) "internalName" in
  let sptId := get (rec_fields sptRecord) "sptId" in
  name ← string_receiver "internalName" "match" internalName;
  let variantSuffix := variant_suffix name in
  let '(packageSize, sellingPrice, weightGrams) :=
    variant_rule variantSuffix mtbRecordFields in
  normalizedPackageSize ← normalize (nullable packageSize);
  let updates := set_option selectOptions "packageSize" normalizedPackageSize updates in
  let updates := <["sellingPrice" := sellingPrice]> updates in
  let updates := <["weightGrams" := weightGrams]> updates in
  let productType := product_type packageSize in
  normalizedProductType ← normalize (nullable productType);
  let updates := set_option selectOptions "productType" normalizedProductType updates in
  baseProductGroupText ← group_text mtbRecordFields;
  let category := category_of productType baseProductGroupText in
  normalizedCategory ← normalize (VStr category);
  let updates := set_option selectOptions "category" normalizedCategory updates in
  let baseProductGroupName := opt_prop (get mtbRecordFields "baseProductGroup") "name" in
  normalizedBaseProductGroup ← normalize baseProductGroupName;
  let updates :=
    set_option selectOptions "baseProductGroup" normalizedBaseProductGroup updates in
  let countryOfOriginName := get mtbRecordFields "countryOfOrigin" in
  normalizedCountry ← normalize countryOfOriginName;
  let updates := set_option selectOptions "countryOfOrigin" normalizedCountry updates in
  names ← allergens mtbRecordFields;
  let updates := <["allergens" := VArr (option_name <$> names)]> updates in
  let updates :=
    <["supplierProductName" := get mtbRecordFields "supplierProductName"]> updates in
  let updates := <["Ingredients" := get mtbRecordFields "Ingredients"]> updates in
  let updates :=
    <["supplierProductUrl" := get mtbRecordFields "supplierProductUrl"]> updates in
  let updates :=
    <["isOrganic" := js_or (get mtbRecordFields "isOrganic") (VBool false)]> updates in
  let updates := <["isRaw" := js_or (get mtbRecordFields "isRaw") (VBool false)]> updates in
  let updates :=
    <["isGeroosterd" := js_or (get mtbRecordFields "isGeroosterd") (VBool false)]> updates in
  let updates :=
    <["isGebrand" := js_or (get mtbRecordFields "isGebrand") (VBool false)]> updates in
  let updates :=
    <["isSalted" := js_or (get mtbRecordFields "isSalted") (VBool false)]> updates in
  let updates :=
    <["isNutbutterAvailable" :=
        js_or (get mtbRecordFields "isNutbutterAvailable") (VBool false)]> updates in
  let updates := <["imageUrl" := VStr ("/images/" +:+ to_string sptId +:+ ".jpg")]> updates in
  let updates := <["marketingName" := internalName]> updates in
  Ok (Payload (rec_id sptRecord) updates).

(** The body of the loop over the records of the view, lines 80-170:
    [Ok None] is [continue], [Ok (Some p)] pushes [p]. *)
Definition reconcile (selectOptions : gmap string (gmap string string))
    (mtbLookup : list (value * gmap string value)) (sptRecord : record)
    : result (option payload) :=
  match linked_master mtbLookup sptRecord with
  | None => Ok None
  | Some mtbRecordFields =>
      p ← derive selectOptions sptRecord mtbRecordFields;
      Ok (Some p)
  end.

(** [new Map(mtbData.records.map(rec => [rec.fields.baseProductId, rec.fields]))] *)
Definition mtb_lookup (records : list record) : list (value * gmap string value) :=
  (λ rec, (get (rec_fields rec) "baseProductId", rec_fields rec)) <$> records.

(** The loop of lines 79-171, pushing onto [updatePayloads]; an exception
    leaves the loop. *)
Fixpoint build_payloads (selectOptions : gmap string (gmap string string))
    (mtbLookup : list (value * gmap string value)) (recordsToUpdate : list record)
    (updatePayloads : list payload) : result (list payload) :=
  match recordsToUpdate with
  | [] => Ok updatePayloads
  | sptRecord :: rest =>
      o ← reconcile selectOptions mtbLookup sptRecord;
      build_payloads selectOptions mtbLookup rest
        (match o with Some p => updatePayloads ++ [p] | None => updatePayloads end)
  end.

(** The loop of lines 173-192, from index [i].  Each round spends one unit
    of [fuel]; [None] is returned when it runs out.  The pause between two
    calls is not part of the model. *)
Fixpoint write_batches (fuel : nat) (patch : nat → list payload → response ())
    (updatePayloads : list payload) (i : nat) (st : run) : option (run * result ()) :=
  match fuel with
  | 0 => None
  | S fuel' =>
      if (i <? length updatePayloads)%nat then
        let batch := slice i (i + 10) updatePayloads in
        let st := push ("Updating batch of " +:+ pretty (length batch) +:+ " records...") st in
        let updateResponse := patch (length (patches st)) batch in
        let st := submit batch st in
        match updateResponse with
        | Failed errorBody => Some (st, Throw ("Failed to update batch: " +:+ errorBody))
        | Success _ =>
            write_batches fuel' patch updatePayloads (i + 10)
              (push "Batch updated successfully." st)
        end
      else Some (st, Ok ())
  end.

Definition sptTableName : string := "SPT - Sellable Product Table".

(** The [try] block, lines 50-197. *)
Definition try_block (w : world) : option (run * result http_response) :=
  let st := push "Fetching field options from Airtable schema..." (Run [] []) in
  match getSelectOptions (schema_response w) sptTableName with
  | Throw e => Some (st, Throw e)
  | Ok selectOptions =>
  let st := push "Successfully fetched select options." st in
  let st := push "Fetching records from view: Batch Update" st in
  match spt_response w with
  | Failed text => Some (st, Throw ("Failed to fetch SPT records: " +:+ text))
  | Success recordsToUpdate =>
  if (length recordsToUpdate =? 0)%nat then
    let st := push "No records found in the 'Batch Update' view." st in
    Some (st, Ok (Http 200 (MessageBody "No records to update." (log st))))
  else
  let st := push ("Found " +:+ pretty (length recordsToUpdate) +:+ " records to update.") st in
  match mtb_response w with
  | Failed text => Some (st, Throw ("Failed to fetch MTB records: " +:+ text))
  | Success mtbRecords =>
  let mtbLookup := mtb_lookup mtbRecords in
  match build_payloads selectOptions mtbLookup recordsToUpdate [] with
  | Throw e => Some (st, Throw e)
  | Ok updatePayloads =>
  match write_batches (S (length updatePayloads)) (patch_response w) updatePayloads 0 st with
  | None => None
  | Some (st, Throw e) => Some (st, Throw e)
  | Some (st, Ok _) =>
      Some (st, Ok (Http 200
        (MessageBody
           ("Successfully processed and updated " +:+ pretty (length updatePayloads)
              +:+ " records.")
           (log st))))
  end end end end end.

(** [handler], with the [catch] block of lines 199-203.  [UPDATE_PASSWORD] is
    the value of the environment variable, a string or [undefined]; on such
    a value [!==] is the negation of [same_value_zero]. *)
Definition handler (UPDATE_PASSWORD : value) (w : world) (request : request)
    : option outcome :=
  if negb (String.eqb (method request) "POST") then
    Some (Outcome (Http 405 (ErrorBody "Method Not Allowed")) [])
  else if negb (same_value_zero (password request) UPDATE_PASSWORD) then
    Some (Outcome (Http 401 (ErrorBody "Invalid password.")) [])
  else
    match try_block w with
    | None => None
    | Some (st, Ok r) => Some (Outcome r (patches st))
    | Some (st, Throw message) =>
        let st := push ("ERROR: " +:+ message) st in
        Some (Outcome (Http 500 (FailureBody message (log st))) (patches st))
    end.

End Batch.

(** ** The earlier batch handler

    The second copy of the batch handler in the repository: option names are
    looked up as they are written, and an unmatched package size is sent as
    text.  The line numbers are those of that copy. *)

Module BatchText.
Import JS Remote.

Definition is_select (f : field) : bool :=
  String.eqb (field_type f) "singleSelect" || String.eqb (field_type f) "multipleSelects".

(** [new Map(field.options.choices.map(choice => [choice.name, choice.id]))] *)
Definition choice_map (choices : list choice) : gmap string string :=
  foldl (λ m c, <[choice_name c := choice_id c]> m) ∅ choices.

Definition getSelectOptions (schema : response (list table)) (tableName : string)
    : result (gmap string (gmap string string)) :=
  match schema with
  | Failed text => Throw ("Failed to fetch base schema: " +:+ text)
  | Success tables =>
      match List.find (λ t, String.eqb (table_name t) tableName) tables with
      | None => Throw ("Table '" +:+ tableName +:+ "' not found in base schema.")
      | Some table =>
          Ok (foldl (λ optionsMap f,
                if is_select f
                then <[field_name f := choice_map (field_choices f)]> optionsMap
                else optionsMap)
              ∅ (table_fields table))
      end
  end.

(** [text && selectOptions.f?.has(text)] followed by [selectOptions.f.get(text)] *)
Definition lookup_option (selectOptions : gmap string (gmap string string))
    (f : string) (text : option string) : option string :=
  match text with
  | Some s => if String.eqb s "" then None else selectOptions !! f ≫= (.!! s)
  | None => None
  end.

(** Lines 95-113. *)
Definition variant_rule (variantSuffix : option string)
    (mtbRecordFields : gmap string value) : option string * value * value :=
  if strict_eq variantSuffix "z450" then
    (Some "450g Bag", get mtbRecordFields "Verkoop 450g (€/kg)", VNum 600)
  else if strict_eq variantSuffix "z1000" then
    (Some "1000g Bag", get mtbRecordFields "Verkoop 1kg (€/kg)", VNum 1250)
  else if strict_eq variantSuffix "nb175" then
    (Some "175g Jar", get mtbRecordFields "Nut Butter 175g (€/potje)", VNum 400)
  else if strict_eq variantSuffix "nb365" then
    (Some "365g Jar", get mtbRecordFields "Nut Butter 365g (€/pot)", VNum 750)
  else (None, VNull, VNull).

(** Lines 124-126. *)
Definition product_type (packageSize : option string) : option string :=
  match packageSize with
  | Some s =>
      if includes s "Bag" then Some "Nut Bag"
      else if includes s "Jar" then Some "Nut Butter Jar"
      else None
  | None => None
  end.

(** Line 132. *)
Definition group_text (mtbRecordFields : gmap string value) : result string :=
  let name := opt_prop (get mtbRecordFields "baseProductGroup") "name" in
  if nullish name then Ok ""
  else
    s ← string_receiver "mtbRecordFields.baseProductGroup?.name?" "toLowerCase" name;
    Ok (toLowerCase s).

(** Lines 133-135. *)
Definition category_of (productType : option string) (baseProductGroupText : string)
    : string :=
  if strict_eq productType "Nut Butter Jar" then "Nut Butters"
  else if includes baseProductGroupText "mix" then "Mixes"
  else "Whole Nuts".

Definition allergen_name (allergen : string) : string :=
  capitalize_word_start (toLowerCase (trim allergen)).

(** Lines 144-149. *)
Definition allergens (mtbRecordFields : gmap string value) : result (list string) :=
  ingredientsText ←
    string_receiver "ingredientsText" "match" (js_or (get mtbRecordFields "Ingredients") (VStr ""));
  let allergenMatches := default [] (match_all allergen_pattern ingredientsText) in
  Ok (allergen_name <$> allergenMatches).

(** Lines 84-87: the master record a record of the view is joined to;
    [None] when the loop moves on to the next record. *)
Definition linked_master (mtbLookup : list (value * gmap string value))
    (sptRecord : record) : option (gmap string value) :=
  let linkedBaseId := get (rec_fields sptRecord) "linkedBaseProductId" in
  if negb (truthy linkedBaseId) then None
  else map_get mtbLookup linkedBaseId.

(** Lines 89-164: the payload of a record joined to [mtbRecordFields]. *)
Definition derive (selectOptions : gmap string (gmap string string))
    (sptRecord : record) (mtbRecordFields : gmap string value) : result payload :=
  let updates : gmap string value := ∅ in
  let internalName := get (rec_fields sptRecord) "internalName" in
  let sptId := get (rec_fields sptRecord) "sptId" in
  name ← string_receiver "internalName" "match" internalName;
  let variantSuffix := variant_suffix name in
  let '(packageSize, sellingPrice, weightGrams) :=
    variant_rule variantSuffix mtbRecordFields in
  let updates :=
    match lookup_option selectOptions "packageSize" packageSize with
    | Some id => <["packageSize" := option_ref id]> updates
    | None => <["packageSize" := nullable packageSize]> updates
    end in
  let updates := <["sellingPrice" := sellingPrice]> updates in
  let updates := <["weightGrams" := weightGrams]> updates in
  let productType := product_type packageSize in
  let updates :=
    match lookup_option selectOptions "productType" productType with
    | Some id => <["productType" := option_ref id]> updates
    | None => updates
    end in
  baseProductGroupText ← group_text mtbRecordFields;
  let category := category_of productType baseProductGroupText in
  let updates :=
    match lookup_option selectOptions "category" (Some category) with
    | Some id => <["category" := option_ref id]> updates
    | None => updates
    end in
  names ← allergens mtbRecordFields;
  let updates := <["allergens" := VArr (option_name <$> names)]> updates in
  let updates :=
    <["supplierProductName" := get mtbRecordFields "supplierProductName"]> updates in
  let updates := <["Ingredients" := get mtbRecordFields "Ingredients"]> updates in
  let updates := <["countryOfOrigin" := get mtbRecordFields "countryOfOrigin"]> updates in
  let updates :=
    <["supplierProductUrl" := get mtbRecordFields "supplierProductUrl"]> updates in
  let updates :=
    <["isOrganic" := js_or (get mtbRecordFields "isOrganic") (VBool false)]> updates in
  let updates := <["isRaw" := js_or (get mtbRecordFields "isRaw") (VBool false)]> updates in
  let updates :=
    <["isGeroosterd" := js_or (get mtbRecordFields "isGeroosterd") (VBool false)]> updates in
  let updates :=
    <["isGebrand" := js_or (get mtbRecordFields "isGebrand") (VBool false)]> updates in
  let updates :=
    <["isSalted" := js_or (get mtbRecordFields "isSalted") (VBool false)]> updates in
  let updates :=
    <["isNutbutterAvailable" :=
        js_or (get mtbRecordFields "isNutbutterAvailable") (VBool false)]> updates in
  let updates := <["imageUrl" := VStr ("/images/" +:+ to_string sptId +:+ ".jpg")]> updates in
  let updates := <["marketingName" := internalName]> updates in
  Ok (Payload (rec_id sptRecord) updates).

(** The body of the loop over the records of the view, lines 84-164:
    [Ok None] is [continue], [Ok (Some p)] pushes [p]. *)
Definition reconcile (selectOptions : gmap string (gmap string string))
    (mtbLookup : list (value * gmap string value)) (sptRecord : record)
    : result (option payload) :=
  match linked_master mtbLookup sptRecord with
  | None => Ok None
  | Some mtbRecordFields =>
      p ← derive selectOptions sptRecord mtbRecordFields;
      Ok (Some p)
  end.

(** [new Map(mtbData.records.map(rec => [rec.fields.baseProductId, rec.fields]))] *)
Definition mtb_lookup (records : list record) : list (value * gmap string value) :=
  (λ rec, (get (rec_fields rec) "baseProductId", rec_fields rec)) <$> records.

(** The loop of lines 83-165. *)
Fixpoint build_payloads (selectOptions : gmap string (gmap string string))
    (mtbLookup : list (value * gmap string value)) (recordsToUpdate : list record)
    (updatePayloads : list payload) : result (list payload) :=
  match recordsToUpdate with
  | [] => Ok updatePayloads
  | sptRecord :: rest =>
      o ← reconcile selectOptions mtbLookup sptRecord;
      build_payloads selectOptions mtbLookup rest
        (match o with Some p => updatePayloads ++ [p] | None => updatePayloads end)
  end.

(** The loop of lines 168-187, from index [i], on fuel as in
    [Batch.write_batches]. *)
Fixpoint write_batches (fuel : nat) (patch : nat → list payload → response ())
    (updatePayloads : list payload) (i : nat) (st : run) : option (run * result ()) :=
  match fuel with
  | 0 => None
  | S fuel' =>
      if (i <? length updatePayloads)%nat then
        let batch := slice i (i + 10) updatePayloads in
        let st := push ("Updating batch of " +:+ pretty (length batch) +:+ " records...") st in
        let updateResponse := patch (length (patches st)) batch in
        let st := submit batch st in
        match updateResponse with
        | Failed errorBody => Some (st, Throw ("Failed to update batch: " +:+ errorBody))
        | Success _ =>
            write_batches fuel' patch updatePayloads (i + 10)
              (push "Batch updated successfully." st)
        end
      else Some (st, Ok ())
  end.

Definition sptTableName : string := "SPT - Sellable Product Table".

(** The [try] block, lines 49-192. *)
Definition try_block (w : world) : option (run * result http_response) :=
  let st := push "Fetching field options from Airtable schema..." (Run [] []) in
  match getSelectOptions (schema_response w) sptTableName with
  | Throw e => Some (st, Throw e)
  | Ok selectOptions =>
  let st := push "Fetching records from view: Batch Update" st in
  match spt_response w with
  | Failed text => Some (st, Throw ("Failed to fetch SPT records: " +:+ text))
  | Success recordsToUpdate =>
  if (length recordsToUpdate =? 0)%nat then
    let st := push "No records found in the 'Batch Update' view. Nothing to do." st in
    Some (st, Ok (Http 200 (MessageBody "No records to update." (log st))))
  else
  let st := push ("Found " +:+ pretty (length recordsToUpdate) +:+ " records to update.") st in
  match mtb_response w with
  | Failed text => Some (st, Throw ("Failed to fetch MTB records: " +:+ text))
  | Success mtbRecords =>
  let mtbLookup := mtb_lookup mtbRecords in
  match build_payloads selectOptions mtbLookup recordsToUpdate [] with
  | Throw e => Some (st, Throw e)
  | Ok updatePayloads =>
  match write_batches (S (length updatePayloads)) (patch_response w) updatePayloads 0 st with
  | None => None
  | Some (st, Throw e) => Some (st, Throw e)
  | Some (st, Ok _) =>
      Some (st, Ok (Http 200
        (MessageBody
           ("Successfully processed and updated " +:+ pretty (length updatePayloads)
              +:+ " records.")
           (log st))))
  end end end end end.

(** [handler], with the [catch] block of lines 194-198. *)
Definition handler (UPDATE_PASSWORD : value) (w : world) (request : request)
    : option outcome :=
  if negb (String.eqb (method request) "POST") then
    Some (Outcome (Http 405 (ErrorBody "Method Not Allowed")) [])
  else if negb (same_value_zero (password request) UPDATE_PASSWORD) then
    Some (Outcome (Http 401 (ErrorBody "Invalid password.")) [])
  else
    match try_block w with
    | None => None
    | Some (st, Ok r) => Some (Outcome r (patches st))
    | Some (st, Throw message) =>
        let st := push ("ERROR: " +:+ message) st in
        Some (Outcome (Http 500 (FailureBody message (log st))) (patches st))
    end.

End BatchText.

(** ** [api/update-single-product.js] *)

Module Single.
Import JS Remote.

(** Lines 85-103. *)
Definition variant_rule (variantSuffix : option string)
    (mtbRecordFields : gmap string value) : option string * value * value :=
  if strict_eq variantSuffix "z450" then
    (Some "450g Bag", get mtbRecordFields "Verkoop 450g (€/kg)", VNum 600)
  else if strict_eq variantSuffix "z1000" then
    (Some "1kg Bag", get mtbRecordFields "Verkoop 1kg (€/kg)", VNum 1250)
  else if strict_eq variantSuffix "nb175" then
    (Some "175g Jar", get mtbRecordFields "Nut Butter 175g (€/potje)", VNum 400)
  else if strict_eq variantSuffix "nb365" then
    (Some "365g Jar", get mtbRecordFields "Nut Butter 365g (€/pot)", VNum 750)
  else (None, VNull, VNull).

(** Lines 109-111. *)
Definition product_type (packageSize : option string) : option string :=
  match packageSize with
  | Some s =>
      if includes s "Bag" then Some "Nut Bag"
      else if includes s "Jar" then Some "Nut Butter Jar"
      else None
  | None => None
  end.

(** Line 115: [mtbRecord.fields.baseProductGroup?.toLowerCase() || '']. *)
Definition group_text (mtbRecordFields : gmap string value) : result string :=
  let group := get mtbRecordFields "baseProductGroup" in
  if nullish group then Ok ""
  else
    s ← string_receiver "mtbRecord.fields.baseProductGroup?" "toLowerCase" group;
    Ok (toLowerCase s).

(** Lines 116-118. *)
Definition category_of (productType : option string) (baseProductGroup : string) : string :=
  if strict_eq productType "Nut Butter Jar" then "Nut Butters"
  else if includes baseProductGroup "mix" then "Mixes"
  else "Whole Nuts".

(** Lines 138-139. *)
Definition allergen_name (allergen : string) : string :=
  capitalize_first (toLowerCase (trim allergen)).

(** Lines 135-140. *)
Definition allergens (mtbRecordFields : gmap string value) : result (list string) :=
  ingredientsText ←
    string_receiver "ingredientsText" "match" (js_or (get mtbRecordFields "Ingredients") (VStr ""));
  let allergenMatches := default [] (match_all allergen_pattern ingredientsText) in
  Ok (allergen_name <$> allergenMatches).

(** Step 3 of the handler, lines 81-142: the fields written back to the
    record, from the two fields read off the record and the fields of its
    master record. *)
Definition derive_updates (internalName sptId : value) (mtbRecordFields : gmap string value)
    : result (gmap string value) :=
  let updates : gmap string value := ∅ in
  name ← string_receiver "internalName" "match" internalName;
  let variantSuffix := variant_suffix name in
  let '(packageSize, sellingPrice, weightGrams) :=
    variant_rule variantSuffix mtbRecordFields in
  let updates := <["packageSize" := nullable packageSize]> updates in
  let updates := <["sellingPrice" := sellingPrice]> updates in
  let updates := <["weightGrams" := weightGrams]> updates in
  let productType := product_type packageSize in
  let updates := <["productType" := nullable productType]> updates in
  baseProductGroup ← group_text mtbRecordFields;
  let category := category_of productType baseProductGroup in
  let updates := <["category" := VStr category]> updates in
  let updates :=
    <["supplierProductName" := get mtbRecordFields "supplierProductName"]> updates in
  let updates := <["baseProductGroup" := get mtbRecordFields "baseProductGroup"]> updates in
  let updates := <["Ingredients" := get mtbRecordFields "Ingredients"]> updates in
  let updates := <["countryOfOrigin" := get mtbRecordFields "countryOfOrigin"]> updates in
  let updates := <["supplierProductUrl" := get mtbRecordFields "supplierProductUrl"]> updates in
  let updates := <["isOrganic" := get mtbRecordFields "isOrganic"]> updates in
  let updates := <["isRaw" := get mtbRecordFields "isRaw"]> updates in
  let updates := <["isGeroosterd" := get mtbRecordFields "isGeroosterd"]> updates in
  let updates := <["isGebrand" := get mtbRecordFields "isGebrand"]> updates in
  let updates := <["isSalted" := get mtbRecordFields "isSalted"]> updates in
  let updates := <["isNutbutterAvailable" := get mtbRecordFields "isNutbutterAvailable"]> updates in
  let updates := <["imageUrl" := VStr ("/images/" +:+ to_string sptId +:+ ".jpg")]> updates in
  let updates := <["marketingName" := internalName]> updates in
  names ← allergens mtbRecordFields;
  let updates := <["allergens" := VArr (VStr <$> names)]> updates in
  let updates := <["updateRecord" := VBool false]> updates in
  Ok updates.

(** The remote side of one single-record update: its answer to the GET of
    the record with a given identifier in the URL, to the GET of the master
    records filtered by a given base product identifier, and to the PATCH of
    the record with given fields. *)
Record remote : Type := Remote {
  spt_record : string → response record;
  mtb_records : string → response (list record);
  patch_record : string → gmap string value → response ()
}.

(** The body of the request: [sptRecordId]. *)
Record update_request : Type := UpdateRequest { req_method : string; sptRecordId : value }.

Inductive reply_body : Type :=
  | MessageOnly (message : string)
  | ErrorOnly (error : string).

(** The reply, and the PATCH calls made: the identifier in the URL and the
    [fields] of the body. *)
Record update_outcome : Type := UpdateOutcome {
  up_status : nat;
  up_body : reply_body;
  up_patches : list (string * gmap string value)
}.

(** The [try] block, lines 38-163: the PATCH sent, if it comes to that, and
    the result. *)
Definition try_block (w : remote) (sptRecordId : value)
    : list (string * gmap string value) * result () :=
  let id := to_string sptRecordId in
  match spt_record w id with
  | Failed text => ([], Throw ("Failed to fetch SPT record: " +:+ text))
  | Success sptRecord =>
  let linkedBaseId := get (rec_fields sptRecord) "linkedBaseProductId" in
  let internalName := get (rec_fields sptRecord) "internalName" in
  let sptId := get (rec_fields sptRecord) "sptId" in
  if negb (truthy linkedBaseId) then
    ([], Throw "The 'linkedBaseProductId' field is empty in the SPT record.")
  else
  match mtb_records w (to_string linkedBaseId) with
  | Failed text => ([], Throw ("Failed to fetch MTB record: " +:+ text))
  | Success records =>
  match records with
  | [] =>
      ([], Throw ("No matching record found in MTB for baseProductId: "
                    +:+ to_string linkedBaseId))
  | mtbRecord :: _ =>
  match derive_updates internalName sptId (rec_fields mtbRecord) with
  | Throw e => ([], Throw e)
  | Ok updates =>
  match patch_record w id updates with
  | Failed text => ([(id, updates)], Throw ("Failed to update SPT record: " +:+ text))
  | Success _ => ([(id, updates)], Ok ())
  end end end end end.

(** [handler], lines 12-171. *)
Definition handler (w : remote) (request : update_request) : update_outcome :=
  if negb (String.eqb (req_method request) "POST") then
    UpdateOutcome 405 (MessageOnly "Method Not Allowed") []
  else if negb (truthy (sptRecordId request)) then
    UpdateOutcome 400 (ErrorOnly "sptRecordId is required.") []
  else
    match try_block w (sptRecordId request) with
    | (sent, Ok _) => UpdateOutcome 200 (MessageOnly "Record updated successfully.") sent
    | (sent, Throw message) => UpdateOutcome 500 (ErrorOnly message) sent
    end.

End Single.

(** ** Vocabulary of the statements *)

Import JS Remote.
Local Open Scope nat_scope.

(** One or more digits. *)
Definition nonempty_digits (l : list ascii) : bool :=
  match l with [] => false | _ :: _ => forallb is_digit l end.

(** The codes the variant pattern captures: [z] or [nb], then digits. *)
Definition is_variant_code (l : list ascii) : bool :=
  match l with
  | c :: r =>
      if Ascii.eqb "z" c then nonempty_digits r
      else if Ascii.eqb "n" c then
        match r with
        | b :: r' => Ascii.eqb "b" b && nonempty_digits r'
        | [] => false
        end
      else false
  | [] => false
  end.

Definition all_spaces (ws : string) : bool := forallb is_space (list_ascii_of_string ws).

(** A name ends in a code: a hyphen, optional white space and the code close
    the name. *)
Definition ends_in_code (name code : string) : Prop :=
  ∃ prefix ws, name = prefix +:+ "-" +:+ ws +:+ code ∧ all_spaces ws = true.

(** The four codes of the variant rules. *)
Definition known_codes : list string := ["z450"; "z1000"; "nb175"; "nb365"].

(** The name carries one of the four codes, as the handlers decide it. *)
Definition recognized (internalName : string) : bool :=
  match variant_suffix internalName with
  | Some code => bool_decide (code ∈ known_codes)
  | None => false
  end.

(** The table of section 4.2 of the specification: code, package size,
    price column, weight in grams. *)
Definition variant_table : list (string * (string * string * Z)) :=
  [ ("z450", ("450g Bag", "Verkoop 450g (€/kg)", 600%Z));
    ("z1000", ("1000g Bag", "Verkoop 1kg (€/kg)", 1250%Z));
    ("nb175", ("175g Jar", "Nut Butter 175g (€/potje)", 400%Z));
    ("nb365", ("365g Jar", "Nut Butter 365g (€/pot)", 750%Z)) ].

(** A field of a derived object, when the derivation returns one. *)
Definition payload_field (r : result (gmap string value)) (k : string) : option value :=
  match r with Ok u => u !! k | Throw _ => None end.

(** A master record with a price for the kilogram bag. *)
Definition almond_master : gmap string value :=
  {[ "baseProductId" := VStr "almond"; "Verkoop 1kg (€/kg)" := VNum 18 ]}.

(** Consecutive chunks of at most ten elements, in order; [n] bounds the
    number of chunks. *)
Fixpoint chunks_aux {A : Type} (n : nat) (l : list A) : list (list A) :=
  match n, l with
  | S n', _ :: _ => take 10 l :: chunks_aux n' (drop 10 l)
  | _, _ => []
  end.

Definition chunks {A : Type} (l : list A) : list (list A) := chunks_aux (length l) l.

(** The write calls for a list of chunks, one after the other until one
    fails: what the loop of [Batch.write_batches] does, chunk by chunk. *)
Fixpoint write_chunks (patch : nat → list payload → response ())
    (cs : list (list payload)) (st : run) : run * result () :=
  match cs with
  | [] => (st, Ok ())
  | batch :: cs' =>
      let st := push ("Updating batch of " +:+ pretty (length batch) +:+ " records...") st in
      let updateResponse := patch (length (patches st)) batch in
      let st := submit batch st in
      match updateResponse with
      | Failed errorBody => (st, Throw ("Failed to update batch: " +:+ errorBody))
      | Success _ => write_chunks patch cs' (push "Batch updated successfully." st)
      end
  end.

(** The request passes the two checks that precede the [try] block. *)
Definition authorized (UPDATE_PASSWORD : value) (req : request) : Prop :=
  method req = "POST" ∧ same_value_zero (password req) UPDATE_PASSWORD = true.

(** The run reaches the write loop with the payloads [ps]: the three
    documents are served, the view is not empty and no record raises. *)
Definition derives (w : world) (ps : list payload) : Prop :=
  ∃ selectOptions records masters,
    Batch.getSelectOptions (schema_response w) Batch.sptTableName = Ok selectOptions ∧
    spt_response w = Success records ∧ records ≠ [] ∧
    mtb_response w = Success masters ∧
    Batch.build_payloads selectOptions (Batch.mtb_lookup masters) records [] = Ok ps.

(** The log of a run when it enters the write loop, for a view of [n]
    records. *)
Definition log_before_writes (n : nat) : list string :=
  [ "Fetching field options from Airtable schema...";
    "Successfully fetched select options.";
    "Fetching records from view: Batch Update";
    "Found " +:+ pretty n +:+ " records to update." ].

(** *** Sample data

    A schema, a master record and a view of records, used to run the
    statements on concrete inputs. *)

Definition sample_schema : list table :=
  [ Table "MTB - Prices, purchase and sell" [];
    Table "SPT - Sellable Product Table"
      [ Field "internalName" "singleLineText" [];
        Field "packageSize" "singleSelect"
          [ Choice "450g Bag" "selBag450"; Choice "1000g Bag" "selBag1000";
            Choice "175g Jar" "selJar175"; Choice "365g Jar" "selJar365" ];
        Field "productType" "singleSelect"
          [ Choice "Nut Bag" "selNutBag"; Choice "Nut Butter Jar" "selNutButterJar" ];
        Field "category" "singleSelect"
          [ Choice "Nut Butters" "selNutButters"; Choice "Mixes" "selMixes";
            Choice "Whole Nuts" "selWholeNuts" ];
        Field "allergens" "multipleSelects" [ Choice "Soya" "selSoya" ] ] ].

Definition sample_master : record :=
  Record_ (VStr "recMaster1")
    {[ "baseProductId" := VStr "almond";
       "supplierProductName" := VStr "Almonds";
       "Verkoop 450g (€/kg)" := VNum 12;
       "Verkoop 1kg (€/kg)" := VNum 18;
       "Ingredients" := VStr "SOYA, almonds, MILK powder";
       "baseProductGroup" := VObj {[ "name" := VStr "Nut Mix" ]};
       "countryOfOrigin" := VStr "Spain";
       "isOrganic" := VBool true ]}.

(** The record number [i] of the sample view, with a given internal name. *)
Definition sample_record (name : value) (i : nat) : record :=
  Record_ (VStr ("rec" +:+ pretty i))
    {[ "sptId" := VNum (Z.of_nat i);
       "internalName" := name;
       "linkedBaseProductId" := VStr "almond" ]}.

Definition sample_view (n : nat) : list record :=
  sample_record (VStr "Almond-z450") <$> seq 0 n.

(** A world serving the sample documents. *)
Definition sample_world (records : list record)
    (patch : nat → list payload → response ()) : world :=
  World (Success sample_schema) (Success records) (Success [sample_master]) patch.

Definition sample_request : request := Request "POST" (VStr "secret").

Definition is_ok {A : Type} (r : result A) : bool :=
  match r with Ok _ => true | Throw _ => false end.

Definition ok_or {A : Type} (d : A) (r : result A) : A :=
  match r with Ok a => a | Throw _ => d end.

(** The payloads derived for a view in the sample world. *)
Definition sample_derivation (records : list record) : result (list payload) :=
  selectOptions ← Batch.getSelectOptions (Success sample_schema) Batch.sptTableName;
  Batch.build_payloads selectOptions (Batch.mtb_lookup [sample_master]) records [].

Definition sample_payloads (records : list record) : list payload :=
  ok_or [] (sample_derivation records).

Definition always_ok (n : nat) (batch : list payload) : response () := Success ().

(** The remote side refuses the second write call. *)
Definition second_call_fails (n : nat) (batch : list payload) : response () :=
  if n =? 1 then Failed "RATE_LIMIT" else Success ().

(** A string, or a value that [||] replaces by the empty string. *)
Definition text_or_falsy (v : value) : bool :=
  match v with VStr _ => true | _ => negb (truthy v) end.

(** A string, [null] or [undefined]. *)
Definition text_or_nullish (v : value) : bool :=
  match v with VStr _ => true | _ => nullish v end.


(** The option maps of the sample schema, with and without normalised
    names. *)
Definition sample_options : gmap string (gmap string string) :=
  ok_or ∅ (Batch.getSelectOptions (Success sample_schema) Batch.sptTableName).

Definition sample_options_text : gmap string (gmap string string) :=
  ok_or ∅ (BatchText.getSelectOptions (Success sample_schema) Batch.sptTableName).

(** What the statements observe of a run: the status of the reply and the
    write calls. *)
Definition observable (o : option outcome) : option (nat * list (list payload)) :=
  (λ o, (status (reply o), submitted o)) <$> o.

(** The record is not joined to a master record: its link is empty, or it
    is not a key of the lookup. *)
Definition unlinked (lookup : list (value * gmap string value)) (r : record) : Prop :=
  truthy (get (rec_fields r) "linkedBaseProductId") = false ∨
  map_get lookup (get (rec_fields r) "linkedBaseProductId") = None.

Definition with_view (w : world) (records : list record) : world :=
  World (schema_response w) (Success records) (mtb_response w) (patch_response w).

(** A record linked to a base product that has no master record. *)
Definition orphan_record : record :=
  Record_ (VStr "recOrphan")
    {[ "internalName" := VStr "Cashew-z450"; "linkedBaseProductId" := VStr "cashew" ]}.

(** A record linked to the sample master record, without a name. *)
Definition nameless_record : record :=
  Record_ (VStr "recNameless") {[ "linkedBaseProductId" := VStr "almond" ]}.

(** The three categories. *)
Definition categories : list string := ["Nut Butters"; "Mixes"; "Whole Nuts"].

(** Option resolution in [api/update-batch-products.js]: the text is
    normalised, then looked up in the map of the field. *)
Definition resolve (selectOptions : gmap string (gmap string string))
    (f : string) (text : value) : result (option string) :=
  normalized ← Batch.normalize text;
  Ok (Batch.lookup_option selectOptions f normalized).

(** Option resolution in the earlier batch handler: the text is looked up as
    it is. *)
Definition resolve_text (selectOptions : gmap string (gmap string string))
    (f : string) (text : option string) : option string :=
  BatchText.lookup_option selectOptions f text.

(** The sample master record as the single-record handler reads it, with
    the product group as text. *)
Definition sample_master_fields_single : gmap string value :=
  <["baseProductGroup" := VStr "Nut Mix"]> (rec_fields sample_master).

(** The name ends in a digit. *)
Definition ends_in_digit (name : string) : bool :=
  match last (list_ascii_of_string name) with
  | Some d => is_digit d
  | None => false
  end.

(** The two jar codes and the two bag codes. *)
Definition jar_codes : list string := ["nb175"; "nb365"].
Definition bag_codes : list string := ["z450"; "z1000"].

(** The sample master record with a linked record as country of origin. *)
Definition sample_master_linked_country : gmap string value :=
  <["countryOfOrigin" := VArr [VStr "recSpain"]]> (rec_fields sample_master).

(** The loop of [getSelectOptions] over the fields of the table. *)
Definition options_of_fields (fields : list field) : gmap string (gmap string string) :=
  foldl (λ optionsMap f,
           if Batch.is_select f
           then <[field_name f := Batch.choice_map (field_choices f)]> optionsMap
           else optionsMap)
    ∅ fields.

(** The two log lines of an accepted write call. *)
Definition chunk_log (batch : list payload) : list string :=
  [ "Updating batch of " +:+ pretty (length batch) +:+ " records...";
    "Batch updated successfully." ].

(** The record is joined to a master record. *)
Definition joined (lookup : list (value * gmap string value)) (r : record) : bool :=
  match Batch.linked_master lookup r with Some _ => true | None => false end.

(** A second master record for the base product of the sample master. *)
Definition sample_master_again : record :=
  Record_ (VStr "recMaster2")
    {[ "baseProductId" := VStr "almond"; "Verkoop 450g (€/kg)" := VNum 13 ]}.

(** A record whose link is a list of record identifiers. *)
Definition array_linked_record : record :=
  Record_ (VStr "recArray")
    {[ "internalName" := VStr "Almond-z450";
       "linkedBaseProductId" := VArr [VStr "almond"] ]}.

(** An array or an object. *)
Definition is_reference (v : value) : bool :=
  match v with VArr _ | VObj _ => true | _ => false end.

(** The six flags copied from the master record. *)
Definition flag_names : list string :=
  ["isOrganic"; "isRaw"; "isGeroosterd"; "isGebrand"; "isSalted"; "isNutbutterAvailable"].

(** The fields the two batch handlers fill in the same way. *)
Definition shared_fields : list string :=
  ["sellingPrice"; "weightGrams"; "allergens"; "supplierProductName"; "Ingredients";
   "supplierProductUrl"; "imageUrl"; "marketingName"] ++ flag_names.

(** The text holds no capital A-Z. *)
Definition no_capitals (s : string) : bool :=
  forallb (λ c, negb (is_upper c)) (list_ascii_of_string s).

(** A capital A-Z followed by lower-case text. *)
Definition capitalised (s : string) : Prop :=
  ∃ c rest, s = String c rest ∧ is_upper c = true ∧ toLowerCase rest = rest.

(** The run of the earlier batch handler reaches the write loop with the
    payloads [ps]. *)
Definition derives_text (w : world) (ps : list payload) : Prop :=
  ∃ selectOptions records masters,
    BatchText.getSelectOptions (schema_response w) BatchText.sptTableName = Ok selectOptions ∧
    spt_response w = Success records ∧ records ≠ [] ∧
    mtb_response w = Success masters ∧
    BatchText.build_payloads selectOptions (BatchText.mtb_lookup masters) records [] = Ok ps.

(** The payloads the earlier batch handler derives for a view in the sample
    world. *)
Definition sample_derivation_text (records : list record) : result (list payload) :=
  selectOptions ← BatchText.getSelectOptions (Success sample_schema) BatchText.sptTableName;
  BatchText.build_payloads selectOptions (BatchText.mtb_lookup [sample_master]) records [].

Definition sample_payloads_text (records : list record) : list payload :=
  ok_or [] (sample_derivation_text records).

(** A remote side for the single-record handler: the record "recA", the
    master records of the base product "almond", every PATCH accepted. *)
Definition sample_remote : Single.remote :=
  Single.Remote
    (λ id, if String.eqb id "recA"
           then Success (sample_record (VStr "Almond-z450") 5)
           else Failed "NOT_FOUND")
    (λ base, if String.eqb base "almond"
             then Success [Record_ (VStr "recMaster1") sample_master_fields_single;
                           sample_master_again]
             else Success [])
    (λ id fields, Success ()).

(** The same remote side with no master record for any base product. *)
Definition sample_remote_no_master : Single.remote :=
  Single.Remote (Single.spt_record sample_remote) (λ base, Success [])
    (Single.patch_record sample_remote).

(** A field of the one PATCH of a single-record update. *)
Definition patched_field (o : Single.update_outcome) (k : string) : option value :=
  match Single.up_patches o with
  | [(_, updates)] => updates !! k
  | _ => None
  end.

(** Option maps of a package size field that has no choice for a bag, with
    normalised names and with the names as they are. *)
Definition jar_choices : list choice :=
  [Choice "175g Jar" "selJar175"; Choice "365g Jar" "selJar365"].

Definition jar_options : gmap string (gmap string string) :=
  {[ "packageSize" := Batch.choice_map jar_choices ]}.

Definition jar_options_text : gmap string (gmap string string) :=
  {[ "packageSize" := BatchText.choice_map jar_choices ]}.

(** The case-folded text of a group value: the lower-cased text of a text,
    the empty text for [null] and [undefined]; not defined for a value of
    another kind. *)
Definition case_folded (v : value) : option string :=
  match v with
  | VStr s => Some (toLowerCase s)
  | VUndefined | VNull => Some ""
  | _ => None
  end.

(** A master record of another base product. *)
Definition cashew_master : record :=
  Record_ (VStr "recMaster3")
    {[ "baseProductId" := VStr "cashew"; "Verkoop 450g (€/kg)" := VNum 15 ]}.

(** * Properties *)

(** ** The matcher on the variant pattern *)

Section star_facts.
Context {A : Type} (p : ascii → bool).

(** A continuation that needs the end of the text: the greedy repetition
    succeeds only by taking all that is left. *)
Lemma star_to_end (k : mstate → option A) (aft : list ascii) : ∀ bef n cap,
  (∀ st, after st ≠ [] → k st = None) →
  star p bef aft n cap k =
    if forallb p aft
    then k (MState (rev aft ++ bef)%list [] (n + length aft) cap) else None.
Proof.
  induction aft as [|c rest IH]; intros bef n cap Hk; simpl.
  - by rewrite Nat.add_0_r.
  - destruct (p c); simpl.
    + rewrite IH by done. rewrite <- app_assoc, Nat.add_succ_r. simpl.
      destruct (forallb p rest); [|by apply Hk].
      destruct (k _) eqn:E; [done|]. by apply Hk.
    + by apply Hk.
Qed.

(** A continuation that cannot start on a character of the class: the
    repetition takes the whole run of such characters. *)
Lemma star_run (k : mstate → option A) (aft : list ascii) : ∀ bef n cap,
  (∀ st c rest, after st = c :: rest → p c = true → k st = None) →
  ∃ run rest : list ascii, aft = (run ++ rest)%list ∧ forallb p run = true ∧
    (∀ c rest', rest = c :: rest' → p c = false) ∧
    star p bef aft n cap k = k (MState (rev run ++ bef)%list rest (n + length run) cap).
Proof.
  induction aft as [|c rest IH]; intros bef n cap Hk; simpl.
  - exists [], []. rewrite Nat.add_0_r. by repeat split.
  - destruct (p c) eqn:Hc.
    + destruct (IH (c :: bef) (S n) cap Hk) as (run & rest' & Heq & Hrun & Hrest & Hstar).
      exists (c :: run), rest'. simpl.
      rewrite Hc, Hrun, Hstar, <- app_assoc, Nat.add_succ_r, Heq. simpl.
      repeat split; [done|].
      destruct (k _) eqn:E; [done|].
      eapply Hk; [done|exact Hc].
    + exists [], (c :: rest). rewrite Nat.add_0_r. repeat split.
      intros c' rest'' [= <- <-]. done.
Qed.
End star_facts.

Lemma plus_to_end {A} (p : ascii → bool) (k : mstate → option A) st :
  (∀ st, after st ≠ [] → k st = None) →
  step_class p st (λ st', star p (before st') (after st') (consumed st') (capture st') k) =
    match after st with
    | [] => None
    | _ :: _ =>
        if forallb p (after st)
        then k (MState (rev (after st) ++ before st)%list [] (consumed st + length (after st))
                  (capture st))
        else None
    end.
Proof.
  intros Hk. unfold step_class. destruct (after st) as [|c rest]; [done|].
  cbn [forallb]. destruct (p c); [|done]. cbn [before after consumed capture andb].
  rewrite star_to_end by done. cbn [rev length]. 
  by rewrite <- app_assoc, Nat.add_succ_r.
Qed.

Lemma step_class_cons {A} (p : ascii → bool) (k : mstate → option A) bef c rest n cap :
  step_class p (MState bef (c :: rest) n cap) k =
    if p c then k (MState (c :: bef) rest (S n) cap) else None.
Proof. done. Qed.

Lemma trim_start_run (run rest : list ascii) :
  forallb is_space run = true →
  (∀ c rest', rest = c :: rest' → is_space c = false) →
  trim_start (run ++ rest)%list = rest.
Proof.
  intros Hrun Hrest. induction run as [|c run IH]; cbn [trim_start app forallb] in *.
  - destruct rest as [|c rest']; [done|]. cbn [trim_start]. by rewrite (Hrest c rest').
  - apply andb_true_iff in Hrun as [-> Hrun]. auto.
Qed.

Lemma space_not_code_start c :
  is_space c = true → Ascii.eqb "z" c = false ∧ Ascii.eqb "n" c = false.
Proof. destruct c as [[] [] [] [] [] [] [] []]; vm_compute; intros; try done. Qed.

Lemma exec_variant bef aft :
  exec_at variant_pattern bef aft =
    match aft with
    | "-"%char :: rest =>
        let code := trim_start rest in
        if is_variant_code code then Some (aft, Some code) else None
    | _ => None
    end.
Proof.
  unfold exec_at, variant_pattern. cbn [rmatch step_class after before consumed capture].
  destruct aft as [|c rest]; [done|].
  destruct (Ascii.eqb_spec "-" c) as [<-|Hc]; cycle 1.
  { destruct c as [[] [] [] [] [] [] [] []]; try done. }
  unfold step_class at 1. cbn [after before consumed capture]. rewrite Ascii.eqb_refl.
  match goal with
  | |- star _ _ _ _ _ ?k = _ =>
      destruct (star_run is_space k rest ("-"%char :: bef) 1 None)
        as (run & rest' & -> & Hrun & Hrest & ->)
  end.
  { intros st c' r' Haft Hsp. unfold step_class. rewrite Haft.
    destruct (space_not_code_start c' Hsp) as [-> ->]. done. }
  cbv zeta. rewrite trim_start_run by done.
  clear Hrest Hrun.
  destruct rest' as [|c1 r1]; [done|].
  rewrite !step_class_cons. cbn [is_variant_code].
  destruct (Ascii.eqb "z" c1) eqn:Hz.
  - rewrite plus_to_end by (by intros [? [] ? ?] ?). cbn [after before consumed capture].
    apply Ascii.eqb_eq in Hz as <-. change (Ascii.eqb "n" "z") with false. cbv iota.
    unfold nonempty_digits. destruct r1 as [|d ds]; [done|].
    destruct (forallb is_digit (d :: ds)); [|done].
    f_equal. f_equal; [|f_equal]; apply take_ge; cbn [length]; rewrite ?length_app;
      cbn [length]; lia.
  - destruct (Ascii.eqb "n" c1) eqn:Hn; [|done].
    destruct r1 as [|c2 r2]; [done|].
    rewrite step_class_cons.
    destruct (Ascii.eqb "b" c2) eqn:Hb; [|done].
    rewrite plus_to_end by (by intros [? [] ? ?] ?). cbn [after before consumed capture andb].
    unfold nonempty_digits. destruct r2 as [|d ds]; [done|].
    destruct (forallb is_digit (d :: ds)); [|done].
    f_equal. f_equal; [|f_equal]; apply take_ge; cbn [length]; rewrite ?length_app;
      cbn [length]; lia.
Qed.

Lemma list_ascii_app (a b : string) :
  list_ascii_of_string (a +:+ b) = (list_ascii_of_string a ++ list_ascii_of_string b)%list.
Proof. induction a as [|c a IH]; [done|]. simpl. by f_equal. Qed.

Lemma digits_no_hyphen (l : list ascii) : forallb is_digit l = true → "-"%char ∉ l.
Proof.
  induction l as [|c l IH]; cbn [forallb]; intros H.
  - by intros ?%elem_of_nil.
  - apply andb_true_iff in H as [Hc Hl].
    intros [<-|?]%elem_of_cons; [by vm_compute in Hc|by apply IH].
Qed.

Lemma code_no_hyphen (l : list ascii) : is_variant_code l = true → "-"%char ∉ l.
Proof.
  destruct l as [|c r]; [done|]. cbn [is_variant_code].
  destruct (Ascii.eqb_spec "z" c) as [<-|_].
  - unfold nonempty_digits. destruct r; [done|]. intros H%digits_no_hyphen.
    intros [?|?]%elem_of_cons; done.
  - destruct (Ascii.eqb_spec "n" c) as [<-|_]; [|done].
    destruct r as [|b r]; [done|]. destruct (Ascii.eqb_spec "b" b) as [<-|_]; [|done].
    unfold nonempty_digits. destruct r; [done|]. intros H%digits_no_hyphen.
    intros [?|[?|?]%elem_of_cons]%elem_of_cons; done.
Qed.

Lemma code_starts_unspaced (l : list ascii) :
  is_variant_code l = true → ∀ c rest, l = c :: rest → is_space c = false.
Proof.
  intros H c rest ->. cbn [is_variant_code] in H.
  destruct (Ascii.eqb_spec "z" c) as [<-|_]; [done|].
  destruct (Ascii.eqb_spec "n" c) as [<-|_]; done.
Qed.

Lemma trim_start_keeps_hyphen (l : list ascii) : "-"%char ∈ l → "-"%char ∈ trim_start l.
Proof.
  induction l as [|c l IH]; [done|]. cbn [trim_start].
  destruct (is_space c) eqn:Hc; [|done].
  intros [<-|?]%elem_of_cons; [done|]. by apply IH.
Qed.

Lemma trim_start_split (l : list ascii) :
  ∃ ws, l = (ws ++ trim_start l)%list ∧ forallb is_space ws = true.
Proof.
  induction l as [|c l (ws & IH & Hws)]; [by exists []|]. cbn [trim_start].
  destruct (is_space c) eqn:Hc; [|by exists []].
  exists (c :: ws). cbn [forallb app]. rewrite Hc, Hws. by rewrite <- IH.
Qed.

Lemma search_variant_found (prefix ws code : list ascii) : ∀ bef,
  forallb is_space ws = true → is_variant_code code = true →
  search variant_pattern bef (prefix ++ "-"%char :: ws ++ code)%list =
    Some (("-"%char :: ws ++ code)%list, Some code).
Proof.
  intros bef Hws Hcode. revert bef.
  assert (Hhere : ∀ bef, exec_at variant_pattern bef ("-"%char :: ws ++ code)%list =
            Some (("-"%char :: ws ++ code)%list, Some code)).
  { intros bef. rewrite exec_variant. cbv zeta.
    rewrite trim_start_run by eauto using code_starts_unspaced. by rewrite Hcode. }
  induction prefix as [|c prefix IH]; intros bef; cbn [app search].
  - destruct (ws ++ code)%list; by rewrite Hhere.
  - rewrite exec_variant.
    destruct (Ascii.eqb_spec "-" c) as [<-|Hc].
    + cbv zeta.
      destruct (is_variant_code (trim_start _)) eqn:E; [|apply IH].
      apply code_no_hyphen in E. destruct E. apply trim_start_keeps_hyphen.
      apply elem_of_app. right. by left.
    + destruct c as [[] [] [] [] [] [] [] []]; try done; apply IH.
Qed.

Lemma search_variant_sound (aft : list ascii) : ∀ bef m c,
  search variant_pattern bef aft = Some (m, c) →
  ∃ prefix ws code, aft = (prefix ++ "-"%char :: ws ++ code)%list ∧
    forallb is_space ws = true ∧ is_variant_code code = true ∧
    m = ("-"%char :: ws ++ code)%list ∧ c = Some code.
Proof.
  assert (Hhere : ∀ bef aft m c, exec_at variant_pattern bef aft = Some (m, c) →
     ∃ ws code, aft = ("-"%char :: ws ++ code)%list ∧ forallb is_space ws = true ∧
       is_variant_code code = true ∧ m = aft ∧ c = Some code).
  { intros bef aft' m c. rewrite exec_variant. destruct aft' as [|x rest]; [done|].
    destruct (Ascii.eqb_spec "-" x) as [<-|Hx].
    - cbv zeta. destruct (is_variant_code (trim_start rest)) eqn:E; [|done].
      intros [= <- <-]. destruct (trim_start_split rest) as (ws & Hrest & Hws).
      exists ws, (trim_start rest). by rewrite <- Hrest.
    - destruct x as [[] [] [] [] [] [] [] []]; done. }
  induction aft as [|x aft IH]; intros bef m c; cbn [search].
  - intros (ws & code & ? & _)%Hhere. done.
  - destruct (exec_at variant_pattern bef (x :: aft)) as [[m' c']|] eqn:E.
    + intros [= -> ->]. apply Hhere in E as (ws & code & -> & ? & ? & -> & ->).
      by exists [], ws, code.
    + intros (prefix & ws & code & -> & ? & ? & -> & ->)%IH.
      by exists (x :: prefix), ws, code.
Qed.

(** ** The variant rules *)

Lemma variant_suffix_found (name code : string) :
  ends_in_code name code → is_variant_code (list_ascii_of_string code) = true →
  variant_suffix name = Some code.
Proof.
  intros (prefix & ws & -> & Hws) Hcode. unfold variant_suffix, match_first.
  rewrite !list_ascii_app. cbn [list_ascii_of_string app].
  rewrite search_variant_found by done. cbn.
  by rewrite string_of_list_ascii_of_string.
Qed.

Lemma variant_suffix_sound (name code : string) :
  variant_suffix name = Some code →
  ends_in_code name code ∧ is_variant_code (list_ascii_of_string code) = true.
Proof.
  unfold variant_suffix, match_first.
  destruct (search _ _ _) as [[m c]|] eqn:E; [|done].
  apply search_variant_sound in E as (prefix & ws & code' & Hname & Hws & Hcode & -> & ->).
  cbn. intros [= <-]. rewrite list_ascii_of_string_of_list_ascii. split; [|done].
  exists (string_of_list_ascii prefix), (string_of_list_ascii ws). split.
  - rewrite <- (string_of_list_ascii_of_string name), Hname.
    rewrite <- (list_ascii_of_string_of_list_ascii prefix) at 1.
    rewrite <- (list_ascii_of_string_of_list_ascii ws) at 1.
    rewrite <- (list_ascii_of_string_of_list_ascii code') at 1.
    change ("-"%char :: ?l) with (list_ascii_of_string "-" ++ l)%list.
    by rewrite <- !list_ascii_app, string_of_list_ascii_of_string.
  - unfold all_spaces. by rewrite list_ascii_of_string_of_list_ascii.
Qed.

Lemma known_code_is_variant_code (code : string) :
  code ∈ known_codes → is_variant_code (list_ascii_of_string code) = true.
Proof.
  unfold known_codes. rewrite !elem_of_cons, elem_of_nil.
  by intros [->|[->|[->|[->|[]]]]].
Qed.

Lemma batch_variant_table name code label column weight (mtb : gmap string value) :
  (code, (label, column, weight)) ∈ variant_table → ends_in_code name code →
  Batch.variant_rule (variant_suffix name) mtb = (Some label, get mtb column, VNum weight).
Proof.
  unfold variant_table. rewrite !elem_of_cons, elem_of_nil.
  intros Hin Hend.
  assert (variant_suffix name = Some code) as ->.
  { apply variant_suffix_found; [done|].
    by destruct Hin as [[= -> _ _ _]|[[= -> _ _ _]|[[= -> _ _ _]|[[= -> _ _ _]|[]]]]]. }
  by destruct Hin as [[= -> -> -> ->]|[[= -> -> -> ->]|[[= -> -> -> ->]|[[= -> -> -> ->]|[]]]]].
Qed.

Lemma batch_text_variant_table name code label column weight (mtb : gmap string value) :
  (code, (label, column, weight)) ∈ variant_table → ends_in_code name code →
  BatchText.variant_rule (variant_suffix name) mtb = (Some label, get mtb column, VNum weight).
Proof.
  unfold variant_table. rewrite !elem_of_cons, elem_of_nil.
  intros Hin Hend.
  assert (variant_suffix name = Some code) as ->.
  { apply variant_suffix_found; [done|].
    by destruct Hin as [[= -> _ _ _]|[[= -> _ _ _]|[[= -> _ _ _]|[[= -> _ _ _]|[]]]]]. }
  by destruct Hin as [[= -> -> -> ->]|[[= -> -> -> ->]|[[= -> -> -> ->]|[[= -> -> -> ->]|[]]]]].
Qed.

Lemma recognized_spec (name : string) :
  recognized name = true ↔ ∃ code, code ∈ known_codes ∧ ends_in_code name code.
Proof.
  unfold recognized. split.
  - destruct (variant_suffix name) as [code|] eqn:Hcode; [|done].
    intros Hin%bool_decide_eq_true. exists code. split; [done|].
    by apply variant_suffix_sound.
  - intros (code & Hin & Hend).
    rewrite (variant_suffix_found name code Hend (known_code_is_variant_code code Hin)).
    by apply bool_decide_eq_true.
Qed.

Lemma single_variant_table_other name code label column weight (mtb : gmap string value) :
  (code, (label, column, weight)) ∈ variant_table → code ≠ "z1000" →
  ends_in_code name code →
  Single.variant_rule (variant_suffix name) mtb = (Some label, get mtb column, VNum weight).
Proof.
  unfold variant_table. rewrite !elem_of_cons, elem_of_nil.
  intros Hin Hne Hend.
  assert (variant_suffix name = Some code) as ->.
  { apply variant_suffix_found; [done|].
    by destruct Hin as [[= -> _ _ _]|[[= -> _ _ _]|[[= -> _ _ _]|[[= -> _ _ _]|[]]]]]. }
  by destruct Hin as [[= -> -> -> ->]|[[= -> -> -> ->]|[[= -> -> -> ->]|[[= -> -> -> ->]|[]]]]].
Qed.

(** C1. The single-record handler labels the kilogram bag "1kg Bag": for the
    name "Almond-z1000" it writes that package size next to the price of the
    column "Verkoop 1kg (€/kg)" and the weight 1250, where the variant rules
    of the batch handler give "1000g Bag" for the same name. *)
Theorem single_record_kilogram_label :
  let u := Single.derive_updates (VStr "Almond-z1000") (VStr "A1") almond_master in
  payload_field u "packageSize" = Some (VStr "1kg Bag") ∧
  payload_field u "sellingPrice" = Some (VNum 18) ∧
  payload_field u "weightGrams" = Some (VNum 1250) ∧
  Batch.variant_rule (variant_suffix "Almond-z1000") almond_master =
    (Some "1000g Bag", VNum 18, VNum 1250).
Proof. vm_compute. done. Qed.

(** ** The write loop *)

Section chunk_facts.
Context {A : Type}.
Implicit Types l : list A.

Lemma chunks_aux_enough n : ∀ m l,
  length l ≤ n → length l ≤ m → chunks_aux n l = chunks_aux m l.
Proof.
  induction n as [|n IH]; intros m l Hn Hm.
  - destruct l; [|simpl in Hn; lia]. by destruct m.
  - destruct l as [|x l]; [by destruct m|].
    destruct m as [|m]; [simpl in Hm; lia|].
    cbn [chunks_aux]. f_equal. apply IH; rewrite length_drop; simpl in *; lia.
Qed.

Lemma chunks_cons x l : chunks (x :: l) = take 10 (x :: l) :: chunks (drop 10 (x :: l)).
Proof.
  unfold chunks. cbn [length chunks_aux]. f_equal.
  apply chunks_aux_enough; rewrite ?length_drop; simpl; lia.
Qed.

(** Induction along the chunks of a list. *)
Lemma chunks_ind (P : list A → Prop) :
  P [] → (∀ x l, P (drop 10 (x :: l)) → P (x :: l)) → ∀ l, P l.
Proof.
  intros Hnil Hcons l.
  assert (∀ n l, length l ≤ n → P l) as H; [|by apply (H (length l))].
  clear l. induction n as [|n IH]; intros l Hl.
  - destruct l; [done|simpl in Hl; lia].
  - destruct l as [|x l]; [done|]. apply Hcons, IH.
    rewrite length_drop. simpl in *. lia.
Qed.

Lemma chunks_concat l : concat (chunks l) = l.
Proof.
  induction l as [|x l IH] using chunks_ind; [done|].
  rewrite chunks_cons. cbn [concat]. rewrite IH. apply take_drop.
Qed.

Lemma chunks_sizes l : Forall (λ b, 1 ≤ length b ≤ 10) (chunks l).
Proof.
  induction l as [|x l IH] using chunks_ind; [by constructor|].
  rewrite chunks_cons. constructor; [|done].
  rewrite length_take. cbn [length]. lia.
Qed.

Lemma chunks_lookup l : ∀ k b,
  chunks l !! k = Some b → b = slice (10 * k) (10 * k + 10) l.
Proof.
  unfold slice. induction l as [|x l IH] using chunks_ind; intros k b; [done|].
  rewrite chunks_cons. destruct k as [|k].
  - intros [= <-]. by replace (10 * 0 + 10 - 10 * 0) with 10 by lia.
  - cbn [lookup list_lookup]. intros ->%IH. rewrite drop_drop.
    f_equal; [lia|f_equal; lia].
Qed.

Lemma chunks_23 l : length l = 23 → length <$> chunks l = [10; 10; 3].
Proof.
  intros Hl. do 24 (destruct l as [|? l]; [done|]). done.
Qed.
End chunk_facts.

Section write_loop.
Context (patch : nat → list payload → response ()).

(** The loop over the index is the sequence of write calls for the chunks
    still ahead, whenever the fuel covers what is left of the list. *)
Lemma write_batches_chunks (ps : list payload) fuel : ∀ i st,
  length ps - i < fuel →
  Batch.write_batches fuel patch ps i st = Some (write_chunks patch (chunks (drop i ps)) st).
Proof.
  induction fuel as [|fuel IH]; intros i st Hfuel; [lia|].
  cbn [Batch.write_batches].
  destruct (Nat.ltb_spec i (length ps)) as [Hi|Hi].
  - destruct (drop i ps) as [|x l] eqn:Hdrop.
    { apply (f_equal length) in Hdrop. rewrite length_drop in Hdrop. simpl in Hdrop. lia. }
    rewrite chunks_cons. cbn [write_chunks]. unfold slice.
    replace (i + 10 - i) with 10 by lia. rewrite Hdrop.
    destruct (patch _ _); [|done].
    rewrite IH by lia. by rewrite <- Hdrop, drop_drop.
  - by rewrite drop_ge by lia.
Qed.

Lemma write_batches_total (ps : list payload) st :
  Batch.write_batches (S (length ps)) patch ps 0 st = Some (write_chunks patch (chunks ps) st).
Proof. rewrite write_batches_chunks by lia. done. Qed.

(** Every call succeeds: all chunks are submitted, in order. *)
Lemma write_chunks_ok cs : ∀ st,
  (∀ k b, cs !! k = Some b → patch (length (patches st) + k) b = Success ()) →
  ∃ st', write_chunks patch cs st = (st', Ok ()) ∧ patches st' = (patches st ++ cs)%list.
Proof.
  induction cs as [|c cs IH]; intros st Hok.
  - exists st. by rewrite app_nil_r.
  - cbn [write_chunks]. cbn [push patches].
    rewrite <- (Nat.add_0_r (length (patches st))), (Hok 0 c eq_refl).
    edestruct IH as (st' & Hrun & Hp); [|exists st'; rewrite Hrun; split; [done|]].
    { intros k b Hk. cbn [push submit patches]. rewrite length_app. cbn [length].
      rewrite <- (Hok (S k) b Hk). f_equal. lia. }
    rewrite Hp. cbn [push submit patches]. by rewrite <- app_assoc.
Qed.

(** The call for chunk [k] is the first to fail: the chunks up to [k] are
    submitted and no other, and the error carries the body of the failed
    response. *)
Lemma write_chunks_fail cs : ∀ st k b e,
  cs !! k = Some b →
  patch (length (patches st) + k) b = Failed e →
  (∀ j c, j < k → cs !! j = Some c → patch (length (patches st) + j) c = Success ()) →
  ∃ st', write_chunks patch cs st = (st', Throw ("Failed to update batch: " +:+ e)) ∧
    patches st' = (patches st ++ take (S k) cs)%list ∧
    ∃ lines, log st' = (log st ++ lines)%list.
Proof.
  induction cs as [|c cs IH]; intros st k b e Hk Hfail Hbefore; [done|].
  cbn [write_chunks]. cbn [push patches]. destruct k as [|k].
  - injection Hk as ->. rewrite Nat.add_0_r in Hfail. rewrite Hfail.
    eexists. split; [done|]. cbn [submit push patches log]. split; [done|]. by eexists.
  - rewrite <- (Nat.add_0_r (length (patches st))), (Hbefore 0 c); [|lia|done].
    edestruct IH as (st' & Hrun & Hp & lines & Hlog);
      [exact Hk| | |exists st'; rewrite Hrun; split; [done|]].
    { cbn [push submit patches]. rewrite length_app. cbn [length].
      rewrite <- Hfail. f_equal. lia. }
    { intros j c' Hj Hc'. cbn [push submit patches]. rewrite length_app. cbn [length].
      rewrite <- (Hbefore (S j) c'); [f_equal; lia|lia|done]. }
    rewrite Hp, Hlog. cbn [push submit patches log].
    split; [by rewrite <- app_assoc|]. rewrite <- !app_assoc. by eexists.
Qed.
End write_loop.

Section write_loop_handler.
Context (patch : nat → list payload → response ()).

(** Whatever the answers, the calls made are the first chunks, in order. *)
Lemma write_chunks_prefix cs : ∀ st,
  ∃ m, patches (write_chunks patch cs st).1 = (patches st ++ take m cs)%list.
Proof.
  induction cs as [|c cs IH]; intros st.
  - exists 0. by rewrite app_nil_r.
  - cbn [write_chunks]. destruct (patch _ _).
    + edestruct IH as [m ->]. exists (S m). cbn [push submit patches take].
      by rewrite <- app_assoc.
    + exists 1. done.
Qed.
End write_loop_handler.

(** A run that reaches the write loop is the sequence of write calls for
    the chunks of its payloads, followed by the reply. *)
Lemma handler_write_phase pw w req ps :
  authorized pw req → derives w ps →
  ∃ n, Batch.handler pw w req =
    Some (match write_chunks (patch_response w) (chunks ps) (Run (log_before_writes n) []) with
          | (st, Ok _) =>
              Outcome
                (Http 200
                   (MessageBody
                      ("Successfully processed and updated " +:+ pretty (length ps)
                         +:+ " records.")
                      (log st)))
                (patches st)
          | (st, Throw message) =>
              Outcome (Http 500 (FailureBody message (log st ++ ["ERROR: " +:+ message])%list))
                (patches st)
          end).
Proof.
  intros [Hm Hpw] (opts & rs & ms & Hopts & Hrs & Hne & Hms & Hps).
  exists (length rs). unfold Batch.handler, Batch.try_block.
  rewrite Hm, Hpw, Hopts, Hrs, Hms, Hps. cbn [String.eqb negb].
  destruct rs as [|r rs]; [done|]. cbn [length Nat.eqb].
  rewrite write_batches_total. unfold log_before_writes. cbn [push log patches app].
  destruct (write_chunks _ _ _) as [st [[]|e]]; done.
Qed.

(** The fuel given to the write loop is always enough: every request gets a
    reply. *)
Lemma handler_returns pw w req : ∃ o, Batch.handler pw w req = Some o.
Proof.
  unfold Batch.handler. destruct (negb (String.eqb _ _)); [by eexists|].
  destruct (negb (same_value_zero _ _)); [by eexists|].
  unfold Batch.try_block.
  destruct (Batch.getSelectOptions _ _) as [opts|e]; [|by eexists].
  destruct (spt_response w) as [rs|e]; [|by eexists].
  destruct (length rs =? 0); [by eexists|].
  destruct (mtb_response w) as [ms|e]; [|by eexists].
  destruct (Batch.build_payloads _ _ _ _) as [ps|e]; [|by eexists].
  rewrite write_batches_total.
  destruct (write_chunks _ _ _) as [st [[]|e]]; by eexists.
Qed.

(** C6. The batch writer submits the payloads in consecutive chunks of at
    most ten, in order: call number [k] carries the payloads from index
    [10 k] up to [10 k + 10], and never more than ten.  When every call
    succeeds the chunks submitted make up the whole list, and a list of 23
    payloads takes three calls, of 10, 10 and 3 payloads. *)
Theorem write_calls_in_tens pw w req ps :
  authorized pw req → derives w ps →
  ∃ o, Batch.handler pw w req = Some o ∧
    (∀ k b, submitted o !! k = Some b →
       b = slice (10 * k) (10 * k + 10) ps ∧ 1 ≤ length b ≤ 10) ∧
    ((∀ n b, patch_response w n b = Success ()) →
       submitted o = chunks ps ∧ concat (submitted o) = ps ∧
       (length ps = 23 → length <$> submitted o = [10; 10; 3])).
Proof.
  intros Hauth Hps. destruct (handler_write_phase pw w req ps Hauth Hps) as [n ->].
  eexists. split; [done|].
  set (st0 := Run (log_before_writes n) []).
  pose proof (write_chunks_prefix (patch_response w) (chunks ps) st0) as [m Hm].
  split.
  - assert (∀ k b, take m (chunks ps) !! k = Some b →
              b = slice (10 * k) (10 * k + 10) ps ∧ 1 ≤ length b ≤ 10) as Htake.
    { intros k b [Hk _]%lookup_take_Some. split; [by apply chunks_lookup|].
      pose proof (chunks_sizes ps) as Hall. rewrite Forall_lookup in Hall.
      by apply (Hall k). }
    destruct (write_chunks _ _ _) as [st [[]|e]]; cbn [fst submitted] in *;
      rewrite Hm; exact Htake.
  - intros Hok.
    destruct (write_chunks_ok (patch_response w) (chunks ps) st0) as (st' & Hrun & Hp).
    { intros; apply Hok. }
    rewrite Hrun. cbn [submitted]. rewrite Hp. cbn [st0 patches app].
    split; [done|]. split; [apply chunks_concat|apply chunks_23].
Qed.

Lemma sample_derives records patch :
  records ≠ [] → is_ok (sample_derivation records) = true →
  derives (sample_world records patch) (sample_payloads records).
Proof.
  unfold sample_payloads, sample_derivation. intros Hne Hok.
  destruct (Batch.getSelectOptions _ _) as [opts|] eqn:Hopts; [|done].
  cbn [mbind result_bind] in *.
  destruct (Batch.build_payloads _ _ _ _) as [ps|] eqn:Hps; [|done].
  by exists opts, records, [sample_master].
Qed.

(** On the sample view of 23 records, all calls accepted: three calls. *)
Lemma write_calls_in_tens_witness :
  ∃ o, Batch.handler (VStr "secret") (sample_world (sample_view 23) always_ok) sample_request
         = Some o ∧
       length <$> submitted o = [10; 10; 3].
Proof.
  destruct (write_calls_in_tens (VStr "secret") (sample_world (sample_view 23) always_ok)
              sample_request (sample_payloads (sample_view 23)))
    as (o & Ho & _ & Hall).
  - split; reflexivity.
  - apply sample_derives; [done|]. vm_compute. reflexivity.
  - exists o. split; [exact Ho|]. apply Hall; [done|]. vm_compute. reflexivity.
Defined.

(** C8. When the write call for chunk [k] is the first to fail, the run
    makes no further call: the calls made are those for the chunks up to
    [k], of which the earlier ones were accepted and stay written, as nothing
    else is sent.  The reply has status 500, its error is the message of the
    failure, and the log it carries ends with that message. *)
Theorem failed_write_stops_run pw w req ps k b e :
  authorized pw req → derives w ps →
  chunks ps !! k = Some b →
  patch_response w k b = Failed e →
  (∀ j c, j < k → chunks ps !! j = Some c → patch_response w j c = Success ()) →
  ∃ earlier,
    Batch.handler pw w req =
      Some (Outcome
              (Http 500
                 (FailureBody ("Failed to update batch: " +:+ e)
                    (earlier ++ ["ERROR: " +:+ ("Failed to update batch: " +:+ e)])%list))
              (take (S k) (chunks ps))).
Proof.
  intros Hauth Hps Hk Hfail Hbefore.
  destruct (handler_write_phase pw w req ps Hauth Hps) as [n ->].
  destruct (write_chunks_fail (patch_response w) (chunks ps)
              (Run (log_before_writes n) []) k b e Hk Hfail Hbefore)
    as (st' & -> & Hp & lines & Hlog).
  exists (log st'). by rewrite Hp.
Qed.

(** On the sample view of 23 records, the second call refused: two calls. *)
Lemma failed_write_stops_run_witness :
  ∃ earlier,
    Batch.handler (VStr "secret") (sample_world (sample_view 23) second_call_fails)
      sample_request =
      Some (Outcome
              (Http 500
                 (FailureBody "Failed to update batch: RATE_LIMIT"
                    (earlier ++ ["ERROR: Failed to update batch: RATE_LIMIT"])%list))
              (take 2 (chunks (sample_payloads (sample_view 23))))).
Proof.
  destruct (lookup_lt_is_Some_2 (chunks (sample_payloads (sample_view 23))) 1) as [b Hb].
  { vm_compute. lia. }
  apply (failed_write_stops_run (VStr "secret")
           (sample_world (sample_view 23) second_call_fails) sample_request
           (sample_payloads (sample_view 23)) 1 b "RATE_LIMIT").
  - split; reflexivity.
  - apply sample_derives; [done|]. vm_compute. reflexivity.
  - exact Hb.
  - reflexivity.
  - intros j c Hj _. by replace j with 0 by lia.
Defined.

(** ** The payload of a record *)

Lemma lookup_set_option_ne opts f text (u : gmap string value) k :
  f ≠ k → Batch.set_option opts f text u !! k = u !! k.
Proof.
  intros ?. unfold Batch.set_option. destruct (Batch.lookup_option _ _ _); by simplify_map_eq.
Qed.

Lemma lookup_set_option_eq opts f text (u : gmap string value) :
  Batch.set_option opts f text u !! f =
    match Batch.lookup_option opts f text with
    | Some id => Some (option_ref id)
    | None => u !! f
    end.
Proof. unfold Batch.set_option. destruct (Batch.lookup_option _ _ _); by simplify_map_eq. Qed.

Lemma normalize_nullable (o : option string) :
  Batch.normalize (nullable o) = Ok (Batch.normalize_text (default "" o)).
Proof.
  destruct o as [s|]; [|done]. unfold Batch.normalize, js_or. cbn [nullable truthy].
  by destruct s.
Qed.

(** In [H : (x ← m; k) = Ok _], name the result of [m]. *)
Ltac step_ok H x :=
  match type of H with
  | context [mbind _ ?m] =>
      let E := fresh "E" x in
      destruct m as [x|] eqn:E; cbn [mbind result_bind] in H; [|discriminate H]
  end.

Ltac lookup_payload :=
  repeat first
    [ rewrite lookup_insert_eq
    | rewrite lookup_insert_ne by done
    | rewrite lookup_set_option_ne by done
    | rewrite lookup_set_option_eq ];
  rewrite ?lookup_empty.

Lemma batch_derive_inv opts r mtb p :
  Batch.derive opts r mtb = Ok p →
  ∃ name group names,
    get (rec_fields r) "internalName" = VStr name ∧
    Batch.group_text mtb = Ok group ∧
    Batch.allergens mtb = Ok names ∧
    let packageSize := (Batch.variant_rule (variant_suffix name) mtb).1.1 in
    let productType := Batch.product_type packageSize in
    let category := Batch.category_of productType group in
    pl_id p = rec_id r ∧
    pl_fields p !! "packageSize" =
      option_ref <$>
        Batch.lookup_option opts "packageSize" (Batch.normalize_text (default "" packageSize)) ∧
    pl_fields p !! "sellingPrice" = Some (Batch.variant_rule (variant_suffix name) mtb).1.2 ∧
    pl_fields p !! "weightGrams" = Some (Batch.variant_rule (variant_suffix name) mtb).2 ∧
    pl_fields p !! "productType" =
      option_ref <$>
        Batch.lookup_option opts "productType" (Batch.normalize_text (default "" productType)) ∧
    pl_fields p !! "category" =
      option_ref <$> Batch.lookup_option opts "category" (Batch.normalize_text category) ∧
    pl_fields p !! "allergens" = Some (VArr (option_name <$> names)) ∧
    pl_fields p !! "marketingName" = Some (VStr name) ∧
    pl_fields p !! "imageUrl" =
      Some (VStr ("/images/" +:+ to_string (get (rec_fields r) "sptId") +:+ ".jpg")).
Proof.
  unfold Batch.derive. intros H.
  destruct (get (rec_fields r) "internalName") as [| | | |name| |] eqn:Hname;
    try discriminate H.
  cbn [string_receiver mbind result_bind] in H.
  destruct (Batch.variant_rule (variant_suffix name) mtb) as [[packageSize price] weight] eqn:Hrule.
  rewrite !normalize_nullable in H. cbn [mbind result_bind] in H.
  step_ok H group.
  change (Batch.normalize (VStr ?s)) with (Batch.normalize (nullable (Some s))) in H.
  rewrite normalize_nullable in H. cbn [mbind result_bind default] in H.
  step_ok H groupName. step_ok H country. step_ok H names.
  injection H as <-. exists name, group, names. cbv zeta. rewrite Hrule.
  cbn [pl_id pl_fields fst snd].
  repeat split; lookup_payload; try done.
  all: by destruct (Batch.lookup_option _ _ _).
Qed.

Lemma normalize_ok v : text_or_falsy v = true → ∃ s, Batch.normalize v = Ok s.
Proof.
  unfold Batch.normalize, js_or, text_or_falsy.
  destruct v as [| |b|n|s|l|o]; cbn [truthy negb]; intros H; try discriminate H.
  all: try (destruct b; try discriminate H).
  all: try (destruct (n =? 0)%Z; try discriminate H).
  all: try destruct (negb (String.eqb s "")).
  all: cbn [string_receiver mbind result_bind]; by eexists.
Qed.

Lemma nullish_falsy v : text_or_nullish v = true → text_or_falsy v = true.
Proof. by destruct v. Qed.

Lemma batch_group_text_ok mtb :
  text_or_nullish (opt_prop (get mtb "baseProductGroup") "name") = true →
  ∃ group, Batch.group_text mtb = Ok group.
Proof.
  unfold Batch.group_text. destruct (opt_prop _ _); try done; by eexists.
Qed.

Lemma batch_allergens_ok mtb :
  text_or_falsy (get mtb "Ingredients") = true → ∃ names, Batch.allergens mtb = Ok names.
Proof.
  unfold Batch.allergens, js_or, text_or_falsy.
  destruct (get mtb "Ingredients") as [| |b|n|s|l|o]; cbn [truthy negb]; intros H;
    try discriminate H.
  all: try (destruct b; try discriminate H).
  all: try (destruct (n =? 0)%Z; try discriminate H).
  all: try destruct (negb (String.eqb s "")).
  all: cbn [string_receiver mbind result_bind]; by eexists.
Qed.


Lemma strict_eq_false (o : option string) (literal : string) :
  o ≠ Some literal → strict_eq o literal = false.
Proof.
  destruct o as [s|]; [|done]. cbn [strict_eq]. intros Hne.
  destruct (String.eqb_spec s literal); congruence.
Qed.

Lemma batch_rule_unrecognized name mtb :
  recognized name = false → Batch.variant_rule (variant_suffix name) mtb = (None, VNull, VNull).
Proof.
  unfold recognized, Batch.variant_rule, known_codes.
  destruct (variant_suffix name) as [code|]; [|done].
  intros Hcode%bool_decide_eq_false. rewrite !elem_of_cons, elem_of_nil in Hcode.
  rewrite !strict_eq_false; [done|..]; intros [= ->]; tauto.
Qed.



Lemma lookup_reference_ne (o : option string) f (u : gmap string value) k :
  f ≠ k →
  match o with Some id => <[f := option_ref id]> u | None => u end !! k = u !! k.
Proof. intros ?. destruct o; by simplify_map_eq. Qed.

Lemma text_derive_package_size opts r mtb p :
  BatchText.derive opts r mtb = Ok p →
  ∃ name,
    get (rec_fields r) "internalName" = VStr name ∧
    let packageSize := (BatchText.variant_rule (variant_suffix name) mtb).1.1 in
    pl_fields p !! "packageSize" =
      Some (match BatchText.lookup_option opts "packageSize" packageSize with
            | Some id => option_ref id
            | None => nullable packageSize
            end).
Proof.
  unfold BatchText.derive. intros H.
  destruct (get (rec_fields r) "internalName") as [| | | |name| |] eqn:Hname;
    try discriminate H.
  cbn [string_receiver mbind result_bind] in H.
  destruct (BatchText.variant_rule (variant_suffix name) mtb)
    as [[packageSize price] weight] eqn:Hrule.
  step_ok H group. step_ok H names.
  injection H as <-. exists name. cbv zeta. rewrite Hrule. cbn [pl_fields fst snd].
  split; [done|].
  repeat first
    [ rewrite lookup_insert_ne by done | rewrite lookup_reference_ne by done ].
  destruct (BatchText.lookup_option opts "packageSize" packageSize);
    by rewrite lookup_insert_eq.
Qed.

(** The four package sizes of the rules are not empty, so the earlier
    handler looks each of them up. *)
Lemma text_label_not_empty code mtb text :
  (BatchText.variant_rule code mtb).1.1 = Some text → String.eqb text "" = false.
Proof.
  unfold BatchText.variant_rule.
  repeat (destruct (strict_eq code _); [by intros [= <-]|]). done.
Qed.

Lemma is_ok_ex {A} (r : result A) : is_ok r = true → ∃ a, r = Ok a.
Proof. destruct r; [by eexists|done]. Qed.

(** C3. In the handler that normalises option names, the key of a record is
    the normalised text of its derived package size (the empty text when
    none was derived).  When the option map of [packageSize] maps the key to
    an identifier, the payload carries the [{ id }] reference of that
    identifier; when there is no such map, or the map does not hold the key,
    the payload has no [packageSize] field at all.  In the earlier handler
    the key is the derived text as it is: when the option map of
    [packageSize] maps it to an identifier, the payload carries the [{ id }]
    reference as well, and otherwise the payload carries the derived value
    as it is: the text, or [null] when none was derived. *)
Theorem package_size_by_reference (opts : gmap string (gmap string string)) r mtb :
  (∀ p, Batch.derive opts r mtb = Ok p →
     ∃ name, get (rec_fields r) "internalName" = VStr name ∧
       let packageSize := (Batch.variant_rule (variant_suffix name) mtb).1.1 in
       let key := Batch.normalize_text (default "" packageSize) in
       (∀ choices id, opts !! "packageSize" = Some choices → choices !! key = Some id →
          pl_fields p !! "packageSize" = Some (option_ref id)) ∧
       ((∀ choices, opts !! "packageSize" = Some choices → choices !! key = None) →
          pl_fields p !! "packageSize" = None)) ∧
  (∀ p, BatchText.derive opts r mtb = Ok p →
     ∃ name, get (rec_fields r) "internalName" = VStr name ∧
       let packageSize := (BatchText.variant_rule (variant_suffix name) mtb).1.1 in
       (∀ text choices id, packageSize = Some text →
          opts !! "packageSize" = Some choices → choices !! text = Some id →
          pl_fields p !! "packageSize" = Some (option_ref id)) ∧
       ((∀ text choices, packageSize = Some text →
           opts !! "packageSize" = Some choices → choices !! text = None) →
          pl_fields p !! "packageSize" = Some (nullable packageSize))).
Proof.
  split; intros p Hp.
  - destruct (batch_derive_inv opts r mtb p Hp) as (name & _ & _ & Hname & _ & _ & _ & Hps & _).
    exists name. split; [done|]. cbv zeta in *. rewrite Hps. unfold Batch.lookup_option.
    split.
    + intros choices id -> Hid. cbn [mbind option_bind]. by rewrite Hid.
    + intros Hnone. destruct (opts !! "packageSize") as [choices|]; [|done].
      cbn [mbind option_bind]. by rewrite (Hnone choices eq_refl).
  - destruct (text_derive_package_size opts r mtb p Hp) as (name & Hname & Hps).
    exists name. split; [done|]. cbv zeta in *. rewrite Hps. unfold BatchText.lookup_option.
    split.
    + intros text choices id Htext Hopts Hid. rewrite Htext.
      rewrite (text_label_not_empty _ _ _ Htext), Hopts. cbn [mbind option_bind].
      by rewrite Hid.
    + intros Hnone.
      destruct (BatchText.variant_rule (variant_suffix name) mtb).1.1 as [text|] eqn:Htext;
        [|done].
      destruct (String.eqb text ""); [done|].
      destruct (opts !! "packageSize") as [choices|]; [|done].
      cbn [mbind option_bind]. by rewrite (Hnone text choices eq_refl eq_refl).
Qed.

(** On the sample data, for a record named 'Almond-z450': with the options
    of the sample schema both handlers send the reference of the option
    "450g Bag"; with options that hold no bag the one sends no field and the
    other the text. *)
Lemma package_size_by_reference_witness :
  let r := sample_record (VStr "Almond-z450") 1 in
  let mtb := rec_fields sample_master in
  ∃ p1 p2 q1 q2,
    (Batch.derive sample_options r mtb = Ok p1 ∧
     pl_fields p1 !! "packageSize" = Some (option_ref "selBag450")) ∧
    (Batch.derive jar_options r mtb = Ok p2 ∧
     pl_fields p2 !! "packageSize" = None) ∧
    (BatchText.derive sample_options_text r mtb = Ok q1 ∧
     pl_fields q1 !! "packageSize" = Some (option_ref "selBag450")) ∧
    (BatchText.derive jar_options_text r mtb = Ok q2 ∧
     pl_fields q2 !! "packageSize" = Some (VStr "450g Bag")).
Proof.
  cbv zeta.
  set (r := sample_record (VStr "Almond-z450") 1). set (mtb := rec_fields sample_master).
  destruct (is_ok_ex (Batch.derive sample_options r mtb)) as [p1 Hp1]; [by vm_compute|].
  destruct (is_ok_ex (Batch.derive jar_options r mtb)) as [p2 Hp2]; [by vm_compute|].
  destruct (is_ok_ex (BatchText.derive sample_options_text r mtb)) as [q1 Hq1];
    [by vm_compute|].
  destruct (is_ok_ex (BatchText.derive jar_options_text r mtb)) as [q2 Hq2];
    [by vm_compute|].
  exists p1, p2, q1, q2.
  destruct (package_size_by_reference sample_options r mtb) as [Hstrict _].
  destruct (package_size_by_reference jar_options r mtb) as [Hstrict' _].
  destruct (package_size_by_reference sample_options_text r mtb) as [_ Hlenient].
  destruct (package_size_by_reference jar_options_text r mtb) as [_ Hlenient'].
  destruct (Hstrict p1 Hp1) as (n1 & [= <-] & Hfound & _).
  destruct (Hstrict' p2 Hp2) as (n2 & [= <-] & _ & Hmissing).
  destruct (Hlenient q1 Hq1) as (n3 & [= <-] & Hfound' & _).
  destruct (Hlenient' q2 Hq2) as (n4 & [= <-] & _ & Hmissing').
  split; [split; [exact Hp1|]|split; [split; [exact Hp2|]|split; split; [exact Hq1| |exact Hq2|]]].
  - assert (sample_options !! "packageSize" ≫= (.!! "450gbag") = Some "selBag450") as Hid
      by (by vm_compute).
    destruct (sample_options !! "packageSize") as [choices|] eqn:Hchoices; [|done].
    exact (Hfound choices "selBag450" eq_refl Hid).
  - apply Hmissing. intros choices Hchoices.
    assert (jar_options !! "packageSize" ≫= (.!! "450gbag") = None) as Hid by (by vm_compute).
    by rewrite Hchoices in Hid.
  - assert (sample_options_text !! "packageSize" ≫= (.!! "450g Bag") = Some "selBag450")
      as Hid by (by vm_compute).
    destruct (sample_options_text !! "packageSize") as [choices|] eqn:Hchoices; [|done].
    exact (Hfound' "450g Bag" choices "selBag450" eq_refl eq_refl Hid).
  - apply Hmissing'. intros text choices [= <-] Hchoices.
    assert (jar_options_text !! "packageSize" ≫= (.!! "450g Bag") = None) as Hid
      by (by vm_compute).
    by rewrite Hchoices in Hid.
Defined.

(** ** Records without a master record, records without a name *)

Section loop_facts.
Context (opts : gmap string (gmap string string)) (lookup : list (value * gmap string value)).

Lemma build_payloads_app l1 : ∀ l2 acc,
  Batch.build_payloads opts lookup (l1 ++ l2) acc =
    acc' ← Batch.build_payloads opts lookup l1 acc;
    Batch.build_payloads opts lookup l2 acc'.
Proof.
  induction l1 as [|r l1 IH]; intros l2 acc; [done|].
  cbn [app Batch.build_payloads].
  destruct (Batch.reconcile opts lookup r) as [o|e]; [|done].
  cbn [mbind result_bind]. apply IH.
Qed.

Lemma reconcile_unlinked r :
  Batch.linked_master lookup r = None → Batch.reconcile opts lookup r = Ok None.
Proof. unfold Batch.reconcile. by intros ->. Qed.

(** A record without a master record leaves the list of payloads as it
    would be without the record. *)
Lemma build_payloads_skip l1 r l2 acc :
  Batch.linked_master lookup r = None →
  Batch.build_payloads opts lookup (l1 ++ r :: l2) acc =
    Batch.build_payloads opts lookup (l1 ++ l2) acc.
Proof.
  intros Hr. rewrite !build_payloads_app.
  destruct (Batch.build_payloads opts lookup l1 acc) as [acc'|e]; [|done].
  cbn [mbind result_bind Batch.build_payloads]. by rewrite (reconcile_unlinked r Hr).
Qed.

(** A record that raises ends the loop with an exception. *)
Lemma build_payloads_throw records r e acc :
  r ∈ records → Batch.reconcile opts lookup r = Throw e →
  ∃ e', Batch.build_payloads opts lookup records acc = Throw e'.
Proof.
  intros (l1 & l2 & ->)%list_elem_of_split Hr. rewrite build_payloads_app.
  destruct (Batch.build_payloads opts lookup l1 acc) as [acc'|e']; [|by exists e'].
  cbn [mbind result_bind Batch.build_payloads]. rewrite Hr. by exists e.
Qed.
End loop_facts.

(** The log does not influence the write calls. *)
Lemma write_chunks_log patch cs : ∀ st1 st2,
  patches st1 = patches st2 →
  patches (write_chunks patch cs st1).1 = patches (write_chunks patch cs st2).1 ∧
  is_ok (write_chunks patch cs st1).2 = is_ok (write_chunks patch cs st2).2.
Proof.
  induction cs as [|c cs IH]; intros st1 st2 Hp; [done|].
  cbn [write_chunks]. unfold push, submit. cbn [patches log]. rewrite Hp.
  destruct (patch _ _); cbn [fst snd is_ok patches]; [|done].
  apply IH. cbn [patches]. by rewrite ?Hp.
Qed.

Lemma unlinked_master lookup r : unlinked lookup r ↔ Batch.linked_master lookup r = None.
Proof.
  unfold unlinked, Batch.linked_master.
  destruct (truthy _); cbn [negb]; [|by split; [|left]].
  split; [by intros [?|?]|by right].
Qed.

(** C7. A record of the view whose link to a base product is empty, or is
    not a key of the lookup of master records, yields no payload; the
    payloads of the other records are the ones derived without it, and the
    run goes on: it replies with the same status and makes the same write
    calls as the run on the view without that record. *)
Theorem unlinked_record_is_skipped pw w req l1 r l2 masters :
  mtb_response w = Success masters →
  unlinked (Batch.mtb_lookup masters) r →
  (∀ opts, Batch.reconcile opts (Batch.mtb_lookup masters) r = Ok None) ∧
  (∀ opts acc,
     Batch.build_payloads opts (Batch.mtb_lookup masters) (l1 ++ r :: l2) acc =
       Batch.build_payloads opts (Batch.mtb_lookup masters) (l1 ++ l2) acc) ∧
  (∃ o, Batch.handler pw (with_view w (l1 ++ r :: l2)) req = Some o) ∧
  observable (Batch.handler pw (with_view w (l1 ++ r :: l2)) req) =
    observable (Batch.handler pw (with_view w (l1 ++ l2)) req).
Proof.
  intros Hms Hr%unlinked_master.
  split; [by intros; apply reconcile_unlinked|].
  split; [by intros; apply build_payloads_skip|].
  split; [apply handler_returns|].
  unfold Batch.handler. destruct (negb (String.eqb _ _)); [done|].
  destruct (negb (same_value_zero _ _)); [done|].
  unfold Batch.try_block. cbn [with_view schema_response spt_response mtb_response patch_response].
  destruct (Batch.getSelectOptions _ _) as [opts|e]; [|done].
  rewrite Hms, (build_payloads_skip opts _ l1 r l2 [] Hr).
  assert ((length (l1 ++ r :: l2) =? 0) = false) as ->.
  { rewrite length_app. cbn [length]. apply Nat.eqb_neq. lia. }
  destruct (Nat.eqb_spec (length (l1 ++ l2)) 0) as [Hnil|_].
  - apply nil_length_inv in Hnil as ->. done.
  - destruct (Batch.build_payloads _ _ _ _) as [ps|e]; [|done].
    rewrite !write_batches_total.
    match goal with
    | |- context [write_chunks ?p ?cs ?st1] =>
        match goal with
        | |- context [write_chunks p cs ?st2] =>
            lazymatch st1 with st2 => fail | _ => idtac end;
            destruct (write_chunks_log p cs st1 st2 eq_refl) as [Hp Hok]
        end
    end.
    destruct (write_chunks _ _ _) as [s1 [[]|e1]], (write_chunks _ _ _) as [s2 [[]|e2]];
      cbn [fst snd is_ok] in *; try discriminate Hok; unfold observable; cbn; by rewrite Hp.
Qed.

(** On the sample data, with a record linked to an unknown base product
    between two others. *)
Lemma unlinked_record_is_skipped_witness :
  observable
    (Batch.handler (VStr "secret")
       (with_view (sample_world [] always_ok)
          ([sample_record (VStr "Almond-z450") 0] ++
           orphan_record :: [sample_record (VStr "Almond-nb175") 2]))
       sample_request) =
  observable
    (Batch.handler (VStr "secret")
       (with_view (sample_world [] always_ok)
          ([sample_record (VStr "Almond-z450") 0] ++ [sample_record (VStr "Almond-nb175") 2]))
       sample_request).
Proof.
  apply (unlinked_record_is_skipped (VStr "secret") (sample_world [] always_ok) sample_request
           [sample_record (VStr "Almond-z450") 0] orphan_record
           [sample_record (VStr "Almond-nb175") 2] [sample_master]).
  - reflexivity.
  - right. reflexivity.
Defined.

(** C9. A record of the view that is joined to a master record but has no
    [internalName] is not skipped: matching the pattern on the missing name
    raises a [TypeError].  The run then ends in the [catch] block: status
    500, the message as the last line of the log, and not a single write
    call, so that no record of the view is updated. *)
Theorem missing_name_aborts_run pw w req records masters r mtb :
  authorized pw req →
  spt_response w = Success records → r ∈ records →
  mtb_response w = Success masters →
  Batch.linked_master (Batch.mtb_lookup masters) r = Some mtb →
  rec_fields r !! "internalName" = None →
  (∀ opts, Batch.reconcile opts (Batch.mtb_lookup masters) r =
             Throw "Cannot read properties of undefined (reading 'match')") ∧
  ∃ message earlier,
    Batch.handler pw w req =
      Some (Outcome (Http 500 (FailureBody message (earlier ++ ["ERROR: " +:+ message])%list))
              []).
Proof.
  intros [Hm Hpw] Hrs Hr Hms Hlink Hname.
  assert (∀ opts, Batch.reconcile opts (Batch.mtb_lookup masters) r =
            Throw "Cannot read properties of undefined (reading 'match')") as Hthrow.
  { intros opts. unfold Batch.reconcile, Batch.derive, get. by rewrite Hlink, Hname. }
  split; [done|].
  unfold Batch.handler, Batch.try_block. rewrite Hm, Hpw, Hrs, Hms. cbn [String.eqb negb].
  destruct (Batch.getSelectOptions _ _) as [opts|e]; [|by eexists _, _].
  destruct records as [|r0 records']; [by apply elem_of_nil in Hr|].
  cbn [length Nat.eqb].
  destruct (build_payloads_throw opts (Batch.mtb_lookup masters) (r0 :: records') r _ []
              Hr (Hthrow opts)) as [e' ->].
  by eexists _, _.
Qed.

(** On the sample data, with a nameless record after a complete one. *)
Lemma missing_name_aborts_run_witness :
  ∃ message earlier,
    Batch.handler (VStr "secret")
      (sample_world [sample_record (VStr "Almond-z450") 0; nameless_record] always_ok)
      sample_request =
      Some (Outcome (Http 500 (FailureBody message (earlier ++ ["ERROR: " +:+ message])%list))
              []).
Proof.
  apply (missing_name_aborts_run (VStr "secret")
           (sample_world [sample_record (VStr "Almond-z450") 0; nameless_record] always_ok)
           sample_request [sample_record (VStr "Almond-z450") 0; nameless_record]
           [sample_master] nameless_record (rec_fields sample_master)).
  - split; reflexivity.
  - reflexivity.
  - apply elem_of_cons. right. apply elem_of_cons. by left.
  - reflexivity.
  - reflexivity.
  - reflexivity.
Defined.

(** ** The classifier *)

Lemma batch_category_total productType group :
  Batch.category_of productType group ∈ categories.
Proof.
  unfold Batch.category_of, categories.
  destruct (strict_eq _ _); [|destruct (includes _ _)]; set_solver.
Qed.

Lemma single_category_total productType group :
  Single.category_of productType group ∈ categories.
Proof.
  unfold Single.category_of, categories.
  destruct (strict_eq _ _); [|destruct (includes _ _)]; set_solver.
Qed.

Lemma text_category_total productType group :
  BatchText.category_of productType group ∈ categories.
Proof.
  unfold BatchText.category_of, categories.
  destruct (strict_eq _ _); [|destruct (includes _ _)]; set_solver.
Qed.

Lemma single_rule_unrecognized name mtb :
  recognized name = false → Single.variant_rule (variant_suffix name) mtb = (None, VNull, VNull).
Proof.
  unfold recognized, Single.variant_rule, known_codes.
  destruct (variant_suffix name) as [code|]; [|done].
  intros Hcode%bool_decide_eq_false. rewrite !elem_of_cons, elem_of_nil in Hcode.
  rewrite !strict_eq_false; [done|..]; intros [= ->]; tauto.
Qed.

Lemma single_derive_inv internalName sptId mtb u :
  Single.derive_updates internalName sptId mtb = Ok u →
  ∃ name group,
    internalName = VStr name ∧
    Single.group_text mtb = Ok group ∧
    let packageSize := (Single.variant_rule (variant_suffix name) mtb).1.1 in
    let productType := Single.product_type packageSize in
    u !! "packageSize" = Some (nullable packageSize) ∧
    u !! "productType" = Some (nullable productType) ∧
    u !! "category" = Some (VStr (Single.category_of productType group)).
Proof.
  unfold Single.derive_updates. intros H.
  destruct internalName as [| | | |name| |]; try discriminate H.
  cbn [string_receiver mbind result_bind] in H.
  destruct (Single.variant_rule (variant_suffix name) mtb)
    as [[packageSize price] weight] eqn:Hrule.
  step_ok H group. step_ok H names.
  injection H as <-. exists name, group. cbv zeta. rewrite Hrule. cbn [fst snd].
  repeat split; by simplify_map_eq.
Qed.

(** The group text of each handler is the case-folded text of the value it
    reads off the master record. *)
Lemma batch_group_text_folded mtb group :
  Batch.group_text mtb = Ok group →
  case_folded (opt_prop (get mtb "baseProductGroup") "name") = Some group.
Proof.
  unfold Batch.group_text. cbv zeta.
  destruct (opt_prop (get mtb "baseProductGroup") "name"); cbn; congruence.
Qed.

Lemma single_group_text_folded mtb group :
  Single.group_text mtb = Ok group →
  case_folded (get mtb "baseProductGroup") = Some group.
Proof.
  unfold Single.group_text. cbv zeta.
  destruct (get mtb "baseProductGroup"); cbn; congruence.
Qed.

(** C10. Whenever a payload is derived, the category is one of "Nut
    Butters", "Mixes" and "Whole Nuts".  For a name without one of the four
    codes no package size and no product type are derived, and the category
    is "Mixes" when the case-folded group text of the master record contains
    "mix" and "Whole Nuts" otherwise.  The batch handler reads the group
    text off the [name] of the [baseProductGroup] of the master record, and
    its payload then refers to the option of that category when there is
    one, next to a package size and a product type that are looked up as the
    empty text.  The single-record handler reads the group text off
    [baseProductGroup] itself, and its update carries the category next to a
    [null] package size and product type.  A master record whose group is a
    plain text thus has no group text for the batch handler. *)
Theorem category_is_always_derived :
  (∀ (opts : gmap string (gmap string string)) r mtb p,
     Batch.derive opts r mtb = Ok p →
     ∃ name group category,
       get (rec_fields r) "internalName" = VStr name ∧
       case_folded (opt_prop (get mtb "baseProductGroup") "name") = Some group ∧
       category ∈ categories ∧
       pl_fields p !! "category" =
         option_ref <$> (opts !! "category" ≫= (.!! Batch.normalize_text category)) ∧
       (recognized name = false →
          category = (if includes group "mix" then "Mixes" else "Whole Nuts") ∧
          pl_fields p !! "packageSize" = option_ref <$> (opts !! "packageSize" ≫= (.!! "")) ∧
          pl_fields p !! "productType" = option_ref <$> (opts !! "productType" ≫= (.!! "")))) ∧
  (∀ internalName sptId mtb u, Single.derive_updates internalName sptId mtb = Ok u →
     ∃ name group category,
       internalName = VStr name ∧
       case_folded (get mtb "baseProductGroup") = Some group ∧
       category ∈ categories ∧
       u !! "category" = Some (VStr category) ∧
       (recognized name = false →
          category = (if includes group "mix" then "Mixes" else "Whole Nuts") ∧
          u !! "packageSize" = Some VNull ∧
          u !! "productType" = Some VNull)).
Proof.
  split.
  - intros opts r mtb p Hp.
    destruct (batch_derive_inv opts r mtb p Hp)
      as (name & group & names & Hname & Hgroup & _ & _ & Hps & _ & _ & Hpt & Hcat & _).
    cbv zeta in *.
    exists name, group,
      (Batch.category_of
         (Batch.product_type (Batch.variant_rule (variant_suffix name) mtb).1.1) group).
    split; [done|]. split; [by apply batch_group_text_folded|].
    split; [apply batch_category_total|].
    split; [exact Hcat|].
    intros Hrec. rewrite (batch_rule_unrecognized name mtb Hrec) in *. by repeat split.
  - intros internalName sptId mtb u Hu.
    destruct (single_derive_inv internalName sptId mtb u Hu)
      as (name & group & Hname & Hgroup & Hps & Hpt & Hcat).
    cbv zeta in *.
    exists name, group,
      (Single.category_of
         (Single.product_type (Single.variant_rule (variant_suffix name) mtb).1.1) group).
    split; [done|]. split; [by apply single_group_text_folded|].
    split; [apply single_category_total|].
    split; [exact Hcat|].
    intros Hrec. rewrite (single_rule_unrecognized name mtb Hrec) in *. by repeat split.
Qed.

(** On the sample data, for a record named 'Gift Box' of the group 'Nut
    Mix': the batch handler with the group as an object, the single-record
    handler with the group as a text, and the batch handler with the group
    as a text, where it finds no group text. *)
Lemma category_is_always_derived_witness :
  let r := sample_record (VStr "Gift Box") 1 in
  ∃ p q u,
    (Batch.derive sample_options r (rec_fields sample_master) = Ok p ∧
     pl_fields p !! "category" = Some (option_ref "selMixes") ∧
     pl_fields p !! "packageSize" = None ∧
     pl_fields p !! "productType" = None) ∧
    (Single.derive_updates (VStr "Gift Box") (VNum 1) sample_master_fields_single = Ok u ∧
     u !! "category" = Some (VStr "Mixes") ∧
     u !! "packageSize" = Some VNull ∧
     u !! "productType" = Some VNull) ∧
    (Batch.derive sample_options r sample_master_fields_single = Ok q ∧
     pl_fields q !! "category" = Some (option_ref "selWholeNuts")).
Proof.
  cbv zeta. set (r := sample_record (VStr "Gift Box") 1).
  destruct (is_ok_ex (Batch.derive sample_options r (rec_fields sample_master))) as [p Hp];
    [by vm_compute|].
  destruct (is_ok_ex (Batch.derive sample_options r sample_master_fields_single)) as [q Hq];
    [by vm_compute|].
  destruct (is_ok_ex (Single.derive_updates (VStr "Gift Box") (VNum 1)
                        sample_master_fields_single)) as [u Hu]; [by vm_compute|].
  exists p, q, u.
  destruct category_is_always_derived as [Hbatch Hsingle].
  destruct (Hbatch _ _ _ _ Hp) as (? & g1 & c1 & [= <-] & Hg1 & _ & Hc1 & Hn1).
  destruct (Hbatch _ _ _ _ Hq) as (? & g2 & c2 & [= <-] & Hg2 & _ & Hc2 & Hn2).
  destruct (Hsingle _ _ _ _ Hu) as (? & g3 & c3 & [= <-] & Hg3 & _ & Hc3 & Hn3).
  assert (g1 = "nut mix") as -> by (vm_compute in Hg1; congruence).
  assert (g2 = "") as -> by (vm_compute in Hg2; congruence).
  assert (g3 = "nut mix") as -> by (vm_compute in Hg3; congruence).
  destruct (Hn1 eq_refl) as (-> & Hps1 & Hpt1).
  destruct (Hn2 eq_refl) as (-> & _ & _).
  destruct (Hn3 eq_refl) as (-> & Hps3 & Hpt3).
  split; [|split].
  - split; [exact Hp|]. split; [exact Hc1|]. split; [exact Hps1|exact Hpt1].
  - split; [exact Hu|]. split; [exact Hc3|]. split; [exact Hps3|exact Hpt3].
  - split; [exact Hq|exact Hc2].
Defined.

(** ** Option resolution *)

Lemma choice_map_snoc choices c :
  Batch.choice_map (choices ++ [c]) =
    <[Batch.normalize_text (choice_name c) := choice_id c]> (Batch.choice_map choices).
Proof. unfold Batch.choice_map. by rewrite foldl_app. Qed.

(** A text that normalises like the name of a choice is mapped to a choice
    with that normalised name. *)
Lemma choice_map_finds choices : ∀ c key,
  c ∈ choices → key = Batch.normalize_text (choice_name c) →
  ∃ c', c' ∈ choices ∧ Batch.normalize_text (choice_name c') = key ∧
    Batch.choice_map choices !! key = Some (choice_id c').
Proof.
  induction choices as [|c0 choices IH] using rev_ind; intros c key Hc ->.
  { by apply elem_of_nil in Hc. }
  rewrite choice_map_snoc.
  destruct (decide (Batch.normalize_text (choice_name c0) =
                    Batch.normalize_text (choice_name c))) as [Heq|Hne].
  - exists c0. rewrite <- Heq, lookup_insert_eq. split; [|done].
    apply elem_of_app. right. by apply list_elem_of_singleton.
  - apply elem_of_app in Hc as [Hc|Hc%list_elem_of_singleton]; [|congruence].
    destruct (IH c _ Hc eq_refl) as (c' & Hc' & Hkey & Hlook).
    exists c'. rewrite lookup_insert_ne by done. split; [|done].
    apply elem_of_app. by left.
Qed.

(** C2, for the handler that normalises.  Two choice texts that are equal
    once white space is removed and letters are lower-cased resolve to the
    same option identifier in [api/update-batch-products.js], for every
    select field; and a text that normalises like the name of one of the
    choices of a field is mapped to the identifier of a choice with that
    normalised name. *)
Theorem normalized_resolution_agrees t1 t2 :
  Batch.normalize_text t1 = Batch.normalize_text t2 →
  (∀ opts f, resolve opts f (VStr t1) = resolve opts f (VStr t2)) ∧
  (∀ choices c, c ∈ choices →
     Batch.normalize_text (choice_name c) = Batch.normalize_text t1 →
     ∃ c', c' ∈ choices ∧
       Batch.normalize_text (choice_name c') = Batch.normalize_text t1 ∧
       Batch.choice_map choices !! Batch.normalize_text t1 = Some (choice_id c') ∧
       Batch.choice_map choices !! Batch.normalize_text t2 = Some (choice_id c')).
Proof.
  intros Heq. split.
  - intros opts f. unfold resolve.
    change (VStr ?s) with (nullable (Some s)). rewrite !normalize_nullable.
    cbn [mbind result_bind default id]. by rewrite Heq.
  - intros choices c Hc Hname.
    destruct (choice_map_finds choices c (Batch.normalize_text t1) Hc (eq_sym Hname))
      as (c' & Hc' & Hkey & Hlook).
    exists c'. by rewrite <- Heq.
Qed.

(** The three spellings of 'Whole Nuts' on the sample schema. *)
Lemma normalized_resolution_agrees_witness :
  resolve sample_options "category" (VStr "Whole Nuts") = Ok (Some "selWholeNuts") ∧
  resolve sample_options "category" (VStr "whole nuts") = Ok (Some "selWholeNuts") ∧
  resolve sample_options "category" (VStr " Whole   Nuts ") = Ok (Some "selWholeNuts").
Proof.
  destruct (normalized_resolution_agrees "Whole Nuts" "whole nuts" eq_refl) as [H1 _].
  destruct (normalized_resolution_agrees "Whole Nuts" " Whole   Nuts " eq_refl) as [H2 _].
  rewrite <- H1, <- H2. by vm_compute.
Defined.

(** C2, for the earlier handler: there the lookup is exact.  With the
    choice "Whole Nuts" in the schema, the text "Whole Nuts" resolves to its
    identifier and "whole nuts" does not resolve, although the two are equal
    once white space is removed and letters are lower-cased. *)
Lemma exact_lookup_tells_case_apart :
  Batch.normalize_text "Whole Nuts" = Batch.normalize_text "whole nuts" ∧
  resolve_text sample_options_text "category" (Some "Whole Nuts") = Some "selWholeNuts" ∧
  resolve_text sample_options_text "category" (Some "whole nuts") = None.
Proof. by vm_compute. Qed.

(** ** Allergens *)

(** C5. On the ingredients text "SOYA, almonds, MILK powder" the pattern
    matches "SOYA" and "MILK " (with the space that follows it) and nothing
    in "almonds" or "powder"; trimmed, lower-cased and capitalised, the
    matches give the names "Soya" and "Milk", in both handlers. *)
Theorem allergens_of_sample_text :
  let ingredients : gmap string value :=
    {[ "Ingredients" := VStr "SOYA, almonds, MILK powder" ]} in
  match_all allergen_pattern "SOYA, almonds, MILK powder" = Some ["SOYA"; "MILK "] ∧
  Batch.allergens ingredients = Ok ["Soya"; "Milk"] ∧
  BatchText.allergens ingredients = Ok ["Soya"; "Milk"] ∧
  Single.allergens ingredients = Ok ["Soya"; "Milk"] ∧
  payload_field (pl_fields <$> Batch.derive ∅ (sample_record (VStr "Almond-z450") 1)
                                 (rec_fields sample_master)) "allergens" =
    Some (VArr [option_name "Soya"; option_name "Milk"]) ∧
  payload_field
    (Single.derive_updates (VStr "Almond-z450") (VNum 1) sample_master_fields_single)
    "allergens" = Some (VArr [VStr "Soya"; VStr "Milk"]).
Proof. vm_compute. by repeat split. Qed.

(** * Further properties *)

(** ** The variant pattern and the rules behind it *)

(** X1. The pattern [/-\s*(z\d+|nb\d+)$/] captures a code from a name exactly
    when the name ends in a hyphen, white space or none, and the code, where
    the code is [z] or [nb] followed by one or more digits; the capture is
    that code. *)
Theorem variant_suffix_spec (name code : string) :
  variant_suffix name = Some code ↔
  ends_in_code name code ∧ is_variant_code (list_ascii_of_string code) = true.
Proof.
  split; [apply variant_suffix_sound|]. intros [Hend Hcode]. by apply variant_suffix_found.
Qed.

Lemma variant_suffix_spec_witness :
  variant_suffix "Cashew Butter - nb42" = Some "nb42".
Proof.
  apply variant_suffix_spec. split; [|reflexivity].
  exists "Cashew Butter ", " ". by split.
Defined.

Lemma digits_last (l : list ascii) :
  nonempty_digits l = true → ∃ d, last l = Some d ∧ is_digit d = true.
Proof.
  unfold nonempty_digits. destruct l as [|c l]; [done|]. intros Hall.
  destruct (last (c :: l)) as [d|] eqn:Hlast; [|by apply last_None in Hlast].
  exists d. split; [done|].
  apply last_Some in Hlast as [l' Hl']. rewrite Hl', forallb_app in Hall.
  apply andb_true_iff in Hall as [_ Hd]. cbn in Hd. by destruct (is_digit d).
Qed.

Lemma code_last (l : list ascii) :
  is_variant_code l = true → ∃ d, last l = Some d ∧ is_digit d = true.
Proof.
  destruct l as [|c r]; [done|]. cbn [is_variant_code].
  destruct (Ascii.eqb "z" c).
  - intros (d & Hd & ?)%digits_last. exists d. split; [|done].
    destruct r; [done|]. exact Hd.
  - destruct (Ascii.eqb "n" c); [|done]. destruct r as [|b r]; [done|].
    intros [_ (d & Hd & ?)%digits_last]%andb_true_iff. exists d. split; [|done].
    destruct r; [done|]. exact Hd.
Qed.

(** X2. A code is only found in a name whose last character is a digit: a
    name that ends in anything else, a trailing space for instance, has no
    variant code, and each of the three handlers derives no package size,
    no price and no weight for it. *)
Theorem variant_needs_final_digit (name : string) (mtb : gmap string value) :
  ends_in_digit name = false →
  variant_suffix name = None ∧
  Batch.variant_rule (variant_suffix name) mtb = (None, VNull, VNull) ∧
  BatchText.variant_rule (variant_suffix name) mtb = (None, VNull, VNull) ∧
  Single.variant_rule (variant_suffix name) mtb = (None, VNull, VNull).
Proof.
  intros Hname.
  assert (variant_suffix name = None) as ->; [|done].
  destruct (variant_suffix name) as [code|] eqn:Hcode; [|done].
  apply variant_suffix_sound in Hcode as [(prefix & ws & -> & _) Hcode].
  apply code_last in Hcode as (d & Hlast & Hd).
  unfold ends_in_digit in Hname. rewrite !list_ascii_app in Hname.
  assert (list_ascii_of_string code ≠ []) as Hne by (by intros Hnil; rewrite Hnil in Hlast).
  rewrite !app_assoc, last_app, Hlast in Hname. congruence.
Qed.

Lemma variant_needs_final_digit_witness :
  variant_suffix "Almond-z450 " = None.
Proof. apply (variant_needs_final_digit "Almond-z450 " ∅). reflexivity. Defined.

(** X3. For a record whose name ends in one of the four codes, the payload
    of the batch handler carries the value of the price column of that code
    in the master record as selling price ([undefined] when the column is
    missing), the weight of the code, and for the package size the reference
    of the option whose normalised name is that of the label of the code, or
    no such field when there is no such option. *)
Theorem known_code_payload opts r mtb p name code label column weight :
  Batch.derive opts r mtb = Ok p →
  get (rec_fields r) "internalName" = VStr name →
  (code, (label, column, weight)) ∈ variant_table → ends_in_code name code →
  pl_fields p !! "sellingPrice" = Some (get mtb column) ∧
  pl_fields p !! "weightGrams" = Some (VNum weight) ∧
  pl_fields p !! "packageSize" =
    option_ref <$> Batch.lookup_option opts "packageSize" (Batch.normalize_text label).
Proof.
  intros Hp Hname Hrow Hend.
  destruct (batch_derive_inv opts r mtb p Hp)
    as (name' & _ & _ & Hname' & _ & _ & _ & Hps & Hprice & Hweight & _).
  assert (name' = name) as -> by congruence.
  cbv zeta in Hps. rewrite (batch_variant_table name code label column weight mtb Hrow Hend) in *.
  done.
Qed.

(** For a record named "Product-z450" on the sample data. *)
Lemma known_code_payload_witness :
  ∃ p,
    Batch.derive sample_options (sample_record (VStr "Product-z450") 7)
      (rec_fields sample_master) = Ok p ∧
    pl_fields p !! "sellingPrice" = Some (VNum 12) ∧
    pl_fields p !! "weightGrams" = Some (VNum 600) ∧
    pl_fields p !! "packageSize" = Some (option_ref "selBag450").
Proof.
  destruct (is_ok_ex (Batch.derive sample_options (sample_record (VStr "Product-z450") 7)
                        (rec_fields sample_master))) as [p Hp]; [by vm_compute|].
  exists p. split; [exact Hp|].
  apply (known_code_payload sample_options (sample_record (VStr "Product-z450") 7)
           (rec_fields sample_master) p "Product-z450" "z450" "450g Bag"
           "Verkoop 450g (€/kg)" 600%Z Hp).
  - reflexivity.
  - apply elem_of_cons. by left.
  - exists "Product", "". by split.
Defined.

Lemma jar_code_known code : code ∈ jar_codes → code ∈ known_codes.
Proof. unfold jar_codes, known_codes. rewrite !elem_of_cons, !elem_of_nil. tauto. Qed.

Lemma bag_code_known code : code ∈ bag_codes → code ∈ known_codes.
Proof. unfold bag_codes, known_codes. rewrite !elem_of_cons, !elem_of_nil. tauto. Qed.

Lemma known_code_suffix name code :
  code ∈ known_codes → ends_in_code name code → variant_suffix name = Some code.
Proof.
  intros Hin Hend. apply variant_suffix_found; [done|].
  by apply known_code_is_variant_code.
Qed.

(** X4. The classifier goes by the package size first.  A name that ends in
    a jar code ([nb175], [nb365]) gives the product type "Nut Butter Jar" and
    the category "Nut Butters" whatever the group text, also when it contains
    "mix"; a name that ends in a bag code ([z450], [z1000]) gives the product
    type "Nut Bag" and the category "Mixes" when the group text contains
    "mix" and "Whole Nuts" otherwise.  This holds in the three handlers. *)
Theorem classification_by_code name code group (mtb : gmap string value) :
  ends_in_code name code →
  let b := (Batch.variant_rule (variant_suffix name) mtb).1.1 in
  let t := (BatchText.variant_rule (variant_suffix name) mtb).1.1 in
  let s := (Single.variant_rule (variant_suffix name) mtb).1.1 in
  (code ∈ jar_codes →
     Batch.product_type b = Some "Nut Butter Jar" ∧
     BatchText.product_type t = Some "Nut Butter Jar" ∧
     Single.product_type s = Some "Nut Butter Jar" ∧
     Batch.category_of (Batch.product_type b) group = "Nut Butters" ∧
     BatchText.category_of (BatchText.product_type t) group = "Nut Butters" ∧
     Single.category_of (Single.product_type s) group = "Nut Butters") ∧
  (code ∈ bag_codes →
     let by_group := if includes group "mix" then "Mixes" else "Whole Nuts" in
     Batch.product_type b = Some "Nut Bag" ∧
     BatchText.product_type t = Some "Nut Bag" ∧
     Single.product_type s = Some "Nut Bag" ∧
     Batch.category_of (Batch.product_type b) group = by_group ∧
     BatchText.category_of (BatchText.product_type t) group = by_group ∧
     Single.category_of (Single.product_type s) group = by_group).
Proof.
  intros Hend. cbv zeta. split; intros Hin.
  - rewrite (known_code_suffix name code (jar_code_known code Hin) Hend).
    unfold jar_codes in Hin. rewrite !elem_of_cons, elem_of_nil in Hin.
    by destruct Hin as [->|[->|[]]].
  - rewrite (known_code_suffix name code (bag_code_known code Hin) Hend).
    unfold bag_codes in Hin. rewrite !elem_of_cons, elem_of_nil in Hin.
    destruct Hin as [->|[->|[]]];
      unfold Batch.category_of, BatchText.category_of, Single.category_of;
      destruct (includes group "mix"); repeat split; reflexivity.
Qed.

Lemma classification_by_code_witness :
  Batch.category_of
    (Batch.product_type (Batch.variant_rule (variant_suffix "Trail Mix Butter-nb175") ∅).1.1)
    "trail mix" = "Nut Butters".
Proof.
  destruct (classification_by_code "Trail Mix Butter-nb175" "nb175" "trail mix" ∅)
    as [Hjar _].
  - exists "Trail Mix Butter", "". by split.
  - apply Hjar. apply elem_of_cons. by left.
Defined.

(** ** Normalisation and the option maps *)

Lemma lower_char_space c : is_space (lower_char c) = is_space c.
Proof. destruct c as [[] [] [] [] [] [] [] []]; reflexivity. Qed.

Lemma lower_char_idem c : lower_char (lower_char c) = lower_char c.
Proof. destruct c as [[] [] [] [] [] [] [] []]; reflexivity. Qed.

Lemma lower_char_not_upper c : is_upper (lower_char c) = false.
Proof. destruct c as [[] [] [] [] [] [] [] []]; reflexivity. Qed.

Lemma strip_lower s : strip_spaces (toLowerCase s) = toLowerCase (strip_spaces s).
Proof.
  induction s as [|c s IH]; [done|]. cbn [toLowerCase strip_spaces].
  rewrite lower_char_space. destruct (is_space c); [done|].
  cbn [toLowerCase]. by rewrite IH.
Qed.

Lemma strip_idem s : strip_spaces (strip_spaces s) = strip_spaces s.
Proof.
  induction s as [|c s IH]; [done|]. cbn [strip_spaces].
  destruct (is_space c) eqn:Hc; [done|]. cbn [strip_spaces]. by rewrite Hc, IH.
Qed.

Lemma lower_idem s : toLowerCase (toLowerCase s) = toLowerCase s.
Proof.
  induction s as [|c s IH]; [done|]. cbn [toLowerCase]. by rewrite lower_char_idem, IH.
Qed.

(** X5. The normalised form of a text holds no white space and no capital
    A-Z, and normalising it again changes nothing: a text that is already a
    key of an option map is looked up as itself. *)
Theorem normalize_text_normal (s : string) :
  Batch.normalize_text (Batch.normalize_text s) = Batch.normalize_text s ∧
  forallb (λ c, negb (is_space c) && negb (is_upper c))
    (list_ascii_of_string (Batch.normalize_text s)) = true.
Proof.
  unfold Batch.normalize_text. split.
  - by rewrite strip_lower, strip_idem, lower_idem.
  - induction s as [|c s IH]; [done|]. cbn [strip_spaces].
    destruct (is_space c) eqn:Hc; [done|].
    cbn [toLowerCase list_ascii_of_string forallb].
    by rewrite lower_char_space, Hc, lower_char_not_upper, IH.
Qed.

(** X6. [normalize] raises on a value that is neither text nor falsy.  A
    master record whose country of origin is such a value (a number, an
    array, an object) therefore makes the loop body of the batch handler
    raise, where the earlier handler, which does not normalise, copies the
    value into the payload. *)
Theorem country_must_be_text opts r mtb name :
  get (rec_fields r) "internalName" = VStr name →
  text_or_nullish (opt_prop (get mtb "baseProductGroup") "name") = true →
  text_or_falsy (get mtb "Ingredients") = true →
  text_or_falsy (get mtb "countryOfOrigin") = false →
  (∃ e, Batch.normalize (get mtb "countryOfOrigin") = Throw e ∧
        Batch.derive opts r mtb = Throw e) ∧
  (∃ q, BatchText.derive opts r mtb = Ok q ∧
        pl_fields q !! "countryOfOrigin" = Some (get mtb "countryOfOrigin")).
Proof.
  intros Hname Hgroup Hingr Hcountry. split.
  - assert (∃ e, Batch.normalize (get mtb "countryOfOrigin") = Throw e) as [e He].
    { unfold Batch.normalize, js_or, text_or_falsy in *.
      destruct (get mtb "countryOfOrigin") as [| |b|n|s|l|o]; cbn [truthy negb] in *;
        try discriminate Hcountry; try (by eexists).
      - destruct b; [by eexists|done].
      - destruct (n =? 0)%Z; [done|by eexists]. }
    exists e. split; [done|].
    unfold Batch.derive. rewrite Hname. cbn [string_receiver mbind result_bind].
    destruct (Batch.variant_rule _ _) as [[packageSize price] weight].
    rewrite !normalize_nullable. cbn [mbind result_bind].
    destruct (batch_group_text_ok mtb Hgroup) as [group ->]. cbn [mbind result_bind].
    change (Batch.normalize (VStr ?s)) with (Batch.normalize (nullable (Some s))).
    rewrite normalize_nullable. cbn [mbind result_bind].
    destruct (normalize_ok _ (nullish_falsy _ Hgroup)) as [groupName ->].
    cbn [mbind result_bind]. by rewrite He.
  - unfold BatchText.derive. rewrite Hname. cbn [string_receiver mbind result_bind].
    destruct (BatchText.variant_rule _ _) as [[packageSize price] weight].
    assert (∃ group, BatchText.group_text mtb = Ok group) as [group ->].
    { unfold BatchText.group_text. destruct (opt_prop _ _); try done; by eexists. }
    assert (∃ names, BatchText.allergens mtb = Ok names) as [names ->].
    { destruct (batch_allergens_ok mtb Hingr) as [names Hn]. by exists names. }
    cbn [mbind result_bind]. eexists. split; [done|]. cbn [pl_fields].
    by repeat (rewrite lookup_insert_ne by done); rewrite lookup_insert_eq.
Qed.

(** On the sample data, with a linked record as country of origin. *)
Lemma country_must_be_text_witness :
  (∃ e, Batch.derive ∅ (sample_record (VStr "Almond-z450") 1) sample_master_linked_country
          = Throw e) ∧
  (∃ q, BatchText.derive ∅ (sample_record (VStr "Almond-z450") 1)
          sample_master_linked_country = Ok q ∧
        pl_fields q !! "countryOfOrigin" = Some (VArr [VStr "recSpain"])).
Proof.
  destruct (country_must_be_text ∅ (sample_record (VStr "Almond-z450") 1)
              sample_master_linked_country "Almond-z450")
    as [(e & _ & He) (q & Hq & Hcountry)]; try reflexivity.
  split; [by exists e|]. exists q. split; [exact Hq|exact Hcountry].
Defined.

Lemma options_fold_snoc (fields : list field) (f : field) :
  options_of_fields (fields ++ [f]) =
    if Batch.is_select f
    then <[field_name f := Batch.choice_map (field_choices f)]> (options_of_fields fields)
    else options_of_fields fields.
Proof. unfold options_of_fields. by rewrite foldl_app. Qed.

Lemma options_fold_lookup (fields : list field) (name : string) cm :
  options_of_fields fields !! name = Some cm →
  ∃ f, f ∈ fields ∧ Batch.is_select f = true ∧ field_name f = name ∧
       cm = Batch.choice_map (field_choices f).
Proof.
  induction fields as [|f fields IH] using rev_ind; [done|].
  rewrite options_fold_snoc.
  destruct (Batch.is_select f) eqn:Hsel.
  - destruct (decide (field_name f = name)) as [<-|Hne].
    + rewrite lookup_insert_eq. intros [= <-]. exists f. split; [|done].
      apply elem_of_app. right. by apply list_elem_of_singleton.
    + rewrite lookup_insert_ne by done. intros (f' & ? & ?)%IH. exists f'.
      split; [|done]. apply elem_of_app. by left.
  - intros (f' & ? & ?)%IH. exists f'. split; [|done]. apply elem_of_app. by left.
Qed.

Lemma options_fold_present (fields : list field) (f : field) :
  f ∈ fields → Batch.is_select f = true →
  is_Some (options_of_fields fields !! field_name f).
Proof.
  induction fields as [|f0 fields IH] using rev_ind; intros Hin Hsel.
  { by apply elem_of_nil in Hin. }
  rewrite options_fold_snoc.
  destruct (decide (field_name f0 = field_name f ∧ Batch.is_select f0 = true))
    as [[Hn Hs]|Hno].
  - rewrite Hs, Hn, lookup_insert_eq. by eexists.
  - apply elem_of_app in Hin as [Hin|Hin%list_elem_of_singleton].
    + destruct (Batch.is_select f0) eqn:Hs0; [|by apply IH].
      rewrite lookup_insert_ne by tauto. by apply IH.
    + subst f0. tauto.
Qed.

(** X7. The option maps are those of the first table of the schema with
    the given name.  A field name has an option map exactly when that table
    has a single-select or multiple-select field of that name, and the map is
    then built from the choices of such a field: a field of another type
    never resolves to an option. *)
Theorem select_options_domain tables tableName opts :
  Batch.getSelectOptions (Success tables) tableName = Ok opts →
  ∃ table,
    List.find (λ t, String.eqb (table_name t) tableName) tables = Some table ∧
    ∀ name,
      (is_Some (opts !! name) ↔
         ∃ f, f ∈ table_fields table ∧ Batch.is_select f = true ∧ field_name f = name) ∧
      (∀ cm, opts !! name = Some cm →
         ∃ f, f ∈ table_fields table ∧ Batch.is_select f = true ∧ field_name f = name ∧
              cm = Batch.choice_map (field_choices f)).
Proof.
  unfold Batch.getSelectOptions.
  destruct (List.find _ tables) as [table|]; [|done]. intros [= <-].
  fold (options_of_fields (table_fields table)).
  exists table. split; [done|]. intros name. split; [split|].
  - intros [cm (f & ? & ? & ? & _)%options_fold_lookup]. by exists f.
  - intros (f & Hin & Hsel & <-). by apply options_fold_present.
  - apply options_fold_lookup.
Qed.

(** On the sample schema: [category] has a map, [internalName] has none. *)
Lemma select_options_domain_witness :
  is_Some (sample_options !! "category") ∧ sample_options !! "internalName" = None.
Proof.
  destruct (is_ok_ex (Batch.getSelectOptions (Success sample_schema) Batch.sptTableName))
    as [opts Hopts]; [by vm_compute|].
  destruct (select_options_domain sample_schema Batch.sptTableName opts Hopts)
    as (table & Htable & Hdom).
  injection Htable as <-.
  unfold sample_options. rewrite Hopts. cbn [ok_or]. split.
  - apply (Hdom "category"). eexists. cbn [table_fields]. split.
    + do 3 (apply elem_of_cons; right). apply elem_of_cons. left. reflexivity.
    + split; reflexivity.
  - destruct (opts !! "internalName") as [cm|] eqn:Hcm; [|done].
    destruct (Hdom "internalName") as [_ Hmap].
    destruct (Hmap cm Hcm) as (f & Hin & Hsel & Hname & _).
    cbn [table_fields] in Hin. rewrite !elem_of_cons, elem_of_nil in Hin.
    by destruct Hin as [->|[->|[->|[->|[->|[]]]]]].
Defined.

(** X8. In an option map the last choice with a given normalised name
    provides the identifier: when two choices of a field differ only in case
    or white space, the earlier one cannot be selected.  A text resolves to
    nothing exactly when no choice has its normalised form. *)
Theorem choice_map_last_wins (before after : list choice) (c : choice) :
  (∀ c', c' ∈ after →
     Batch.normalize_text (choice_name c') ≠ Batch.normalize_text (choice_name c)) →
  Batch.choice_map (before ++ c :: after)%list !! Batch.normalize_text (choice_name c) =
    Some (choice_id c) ∧
  ∀ key, Batch.choice_map (before ++ c :: after)%list !! key = None ↔
         ∀ c', c' ∈ (before ++ c :: after)%list →
               Batch.normalize_text (choice_name c') ≠ key.
Proof.
  intros Hafter. split.
  - induction after as [|c0 after IH] using rev_ind.
    + by rewrite choice_map_snoc, lookup_insert_eq.
    + rewrite app_comm_cons, app_assoc, choice_map_snoc.
      rewrite lookup_insert_ne.
      * apply IH. intros c' Hc'. apply Hafter. apply elem_of_app. by left.
      * apply Hafter. apply elem_of_app. right. by apply list_elem_of_singleton.
  - intros key. generalize (before ++ c :: after)%list. clear. intros choices.
    induction choices as [|c0 choices IH] using rev_ind.
    + split; [by intros _ c' ?%elem_of_nil|done].
    + rewrite choice_map_snoc.
      destruct (decide (Batch.normalize_text (choice_name c0) = key)) as [<-|Hne].
      * rewrite lookup_insert_eq. split; [done|]. intros Hall. destruct (Hall c0); [|done].
        apply elem_of_app. right. by apply list_elem_of_singleton.
      * rewrite lookup_insert_ne, IH by done. split.
        -- intros Hall c' [?|Hc'%list_elem_of_singleton]%elem_of_app;
             [by apply Hall|by subst].
        -- intros Hall c' Hc'. apply Hall. apply elem_of_app. by left.
Qed.

(** Two choices that differ in case: the later one is selected. *)
Lemma choice_map_last_wins_witness :
  Batch.choice_map
    [Choice "Whole Nuts" "selOld"; Choice "whole nuts" "selNew"; Choice "Mixes" "selMixes"]
    !! "wholenuts" = Some "selNew".
Proof.
  apply (choice_map_last_wins [Choice "Whole Nuts" "selOld"] [Choice "Mixes" "selMixes"]
           (Choice "whole nuts" "selNew")).
  intros c' Hc'%list_elem_of_singleton. by subst.
Defined.

(** ** The run of the batch handler *)

(** X9. The batch handler writes nothing unless the request is authorised,
    the schema, the view and the master table were all fetched, the view is
    not empty, no record raised and at least one payload was derived. *)
Theorem writes_need_a_complete_run pw w req o :
  Batch.handler pw w req = Some o → submitted o ≠ [] →
  authorized pw req ∧ ∃ ps, derives w ps ∧ ps ≠ [].
Proof.
  unfold Batch.handler, authorized.
  destruct (String.eqb_spec (method req) "POST") as [Hm|_]; cbn [negb]; [|by intros [= <-]].
  destruct (same_value_zero _ _) eqn:Hpw; cbn [negb]; [|by intros [= <-]].
  unfold Batch.try_block, derives.
  destruct (Batch.getSelectOptions _ _) as [opts|e] eqn:Hopts; [|by intros [= <-]].
  destruct (spt_response w) as [rs|e] eqn:Hrs; [|by intros [= <-]].
  destruct (Nat.eqb_spec (length rs) 0) as [|Hlen]; [by intros [= <-]|].
  destruct (mtb_response w) as [ms|e] eqn:Hms; [|by intros [= <-]].
  destruct (Batch.build_payloads _ _ _ _) as [ps|e] eqn:Hps; [|by intros [= <-]].
  intros Ho Hsub. split; [done|]. exists ps. split.
  - exists opts, rs, ms. repeat split; try done. by intros ->.
  - intros ->. cbn in Ho. by injection Ho as <-.
Qed.

(** On the sample data: the run on 23 records writes, so it was complete. *)
Lemma writes_need_a_complete_run_witness :
  authorized (VStr "secret") sample_request ∧
  ∃ ps, derives (sample_world (sample_view 23) always_ok) ps ∧ ps ≠ [].
Proof.
  destruct (handler_returns (VStr "secret") (sample_world (sample_view 23) always_ok)
              sample_request) as [o Ho].
  apply (writes_need_a_complete_run _ _ _ o Ho).
  intros Hnil. apply (f_equal length) in Hnil. revert Hnil.
  replace (length (submitted o))
    with (default 0 (length ∘ submitted <$>
            Batch.handler (VStr "secret") (sample_world (sample_view 23) always_ok)
              sample_request)) by (by rewrite Ho).
  by vm_compute.
Defined.

Lemma find_table_none tables tableName :
  (∀ t, t ∈ tables → table_name t ≠ tableName) →
  List.find (λ t, String.eqb (table_name t) tableName) tables = None.
Proof.
  induction tables as [|t tables IH]; intros Hall; [done|]. cbn [List.find].
  destruct (String.eqb_spec (table_name t) tableName) as [Heq|_].
  - destruct (Hall t); [by left|done].
  - apply IH. intros t' Ht'. apply Hall. by right.
Qed.

(** X10. A fetch that fails ends the run of the batch handler at once, with
    status 500, a message that names the fetch and carries the text of the
    response, that message as the last line of the log, and no write call:
    the schema, a schema without the table, the view, the master table. *)
Theorem failed_fetch_aborts pw w req :
  authorized pw req →
  let fetching := "Fetching field options from Airtable schema..." in
  let aborted message earlier :=
    Batch.handler pw w req =
      Some (Outcome (Http 500 (FailureBody message (earlier ++ ["ERROR: " +:+ message])%list))
              []) in
  (∀ text, schema_response w = Failed text →
     aborted ("Failed to fetch base schema: " +:+ text) [fetching]) ∧
  (∀ tables, schema_response w = Success tables →
     (∀ t, t ∈ tables → table_name t ≠ Batch.sptTableName) →
     aborted "Table 'SPT - Sellable Product Table' not found in base schema." [fetching]) ∧
  (∀ opts text,
     Batch.getSelectOptions (schema_response w) Batch.sptTableName = Ok opts →
     spt_response w = Failed text →
     aborted ("Failed to fetch SPT records: " +:+ text)
       [fetching; "Successfully fetched select options.";
        "Fetching records from view: Batch Update"]) ∧
  (∀ opts records text,
     Batch.getSelectOptions (schema_response w) Batch.sptTableName = Ok opts →
     spt_response w = Success records → records ≠ [] →
     mtb_response w = Failed text →
     aborted ("Failed to fetch MTB records: " +:+ text) (log_before_writes (length records))).
Proof.
  intros [Hm Hpw]. cbv zeta. unfold Batch.handler, Batch.try_block.
  rewrite Hm, Hpw. cbn [String.eqb negb]. repeat split.
  - by intros text ->.
  - intros tables -> Hnone. unfold Batch.getSelectOptions.
    by rewrite (find_table_none tables Batch.sptTableName Hnone).
  - by intros opts text -> ->.
  - intros opts records text -> -> Hne ->.
    destruct records; [done|]. done.
Qed.

(** On the sample data, with the view refused. *)
Lemma failed_fetch_aborts_witness :
  Batch.handler (VStr "secret")
    (World (Success sample_schema) (Failed "NOT_AUTHORIZED") (Success [sample_master])
       always_ok)
    sample_request =
  Some (Outcome
          (Http 500
             (FailureBody "Failed to fetch SPT records: NOT_AUTHORIZED"
                [ "Fetching field options from Airtable schema...";
                  "Successfully fetched select options.";
                  "Fetching records from view: Batch Update";
                  "ERROR: Failed to fetch SPT records: NOT_AUTHORIZED" ]))
          []).
Proof.
  destruct (failed_fetch_aborts (VStr "secret")
              (World (Success sample_schema) (Failed "NOT_AUTHORIZED") (Success [sample_master])
                 always_ok) sample_request) as (_ & _ & Hview & _).
  - split; reflexivity.
  - destruct (is_ok_ex (Batch.getSelectOptions (Success sample_schema) Batch.sptTableName))
      as [opts Hopts]; [by vm_compute|].
    exact (Hview opts "NOT_AUTHORIZED" Hopts eq_refl).
Defined.

Lemma build_payloads_all_unlinked opts lookup records : ∀ acc,
  (∀ r, r ∈ records → Batch.linked_master lookup r = None) →
  Batch.build_payloads opts lookup records acc = Ok acc.
Proof.
  induction records as [|r records IH]; intros acc Hall; [done|].
  cbn [Batch.build_payloads]. rewrite reconcile_unlinked by (apply Hall; by left).
  cbn [mbind result_bind]. apply IH. intros r' Hr'. apply Hall. by right.
Qed.

(** X11. A view none of whose records is joined to a master record is not
    an error: the batch handler replies with status 200 and makes no write
    call.  For an empty view the message is "No records to update." and the
    master table is not even fetched; otherwise the run reports that it
    updated 0 records. *)
Theorem nothing_to_write pw w req opts :
  authorized pw req →
  Batch.getSelectOptions (schema_response w) Batch.sptTableName = Ok opts →
  (spt_response w = Success [] →
     Batch.handler pw w req =
       Some (Outcome
               (Http 200
                  (MessageBody "No records to update."
                     [ "Fetching field options from Airtable schema...";
                       "Successfully fetched select options.";
                       "Fetching records from view: Batch Update";
                       "No records found in the 'Batch Update' view." ]))
               [])) ∧
  (∀ records masters,
     spt_response w = Success records → records ≠ [] →
     mtb_response w = Success masters →
     (∀ r, r ∈ records → Batch.linked_master (Batch.mtb_lookup masters) r = None) →
     Batch.handler pw w req =
       Some (Outcome
               (Http 200
                  (MessageBody "Successfully processed and updated 0 records."
                     (log_before_writes (length records))))
               [])).
Proof.
  intros [Hm Hpw] Hopts. unfold Batch.handler, Batch.try_block.
  rewrite Hm, Hpw, Hopts. cbn [String.eqb negb]. split.
  - by intros ->.
  - intros records masters -> Hne -> Hall.
    rewrite build_payloads_all_unlinked by done.
    destruct records; [done|]. done.
Qed.

(** On the sample data, with a view of one record of an unknown product. *)
Lemma nothing_to_write_witness :
  Batch.handler (VStr "secret") (sample_world [orphan_record] always_ok) sample_request =
    Some (Outcome
            (Http 200
               (MessageBody "Successfully processed and updated 0 records."
                  (log_before_writes 1)))
            []).
Proof.
  destruct (is_ok_ex (Batch.getSelectOptions (Success sample_schema) Batch.sptTableName))
    as [opts Hopts]; [by vm_compute|].
  destruct (nothing_to_write (VStr "secret") (sample_world [orphan_record] always_ok)
              sample_request opts) as [_ Hall].
  - split; reflexivity.
  - exact Hopts.
  - apply (Hall [orphan_record] [sample_master]); try done.
    intros r Hr%list_elem_of_singleton. by subst.
Defined.

Lemma write_chunks_ok_log patch cs : ∀ st,
  (∀ n b, patch n b = Success ()) →
  write_chunks patch cs st =
    (Run (log st ++ concat (chunk_log <$> cs)) (patches st ++ cs), Ok ()).
Proof.
  induction cs as [|c cs IH]; intros st Hok.
  - cbn. rewrite !app_nil_r. by destruct st.
  - cbn [write_chunks]. rewrite Hok, IH by done.
    unfold push, submit, chunk_log. cbn [log patches fmap list_fmap concat].
    by rewrite <- !app_assoc.
Qed.

(** X12. When every write call is accepted, the batch handler replies with
    status 200 and the number of payloads, after one call per chunk; its log
    is the four lines that precede the writes, followed for each chunk, in
    order, by the line that gives the size of the chunk and the line that
    reports its update. *)
Theorem accepted_run_is_logged pw w req ps :
  authorized pw req → derives w ps →
  (∀ n b, patch_response w n b = Success ()) →
  ∃ n,
    Batch.handler pw w req =
      Some (Outcome
              (Http 200
                 (MessageBody
                    ("Successfully processed and updated " +:+ pretty (length ps)
                       +:+ " records.")
                    (log_before_writes n ++ concat (chunk_log <$> chunks ps))%list))
              (chunks ps)).
Proof.
  intros Hauth Hps Hok. destruct (handler_write_phase pw w req ps Hauth Hps) as [n ->].
  exists n. by rewrite write_chunks_ok_log.
Qed.

(** On the sample view of 23 records: ten lines in the log. *)
Lemma accepted_run_is_logged_witness :
  ∃ details,
    Batch.handler (VStr "secret") (sample_world (sample_view 23) always_ok) sample_request =
      Some (Outcome
              (Http 200 (MessageBody "Successfully processed and updated 23 records." details))
              (chunks (sample_payloads (sample_view 23)))) ∧
    length details = 10.
Proof.
  destruct (accepted_run_is_logged (VStr "secret") (sample_world (sample_view 23) always_ok)
              sample_request (sample_payloads (sample_view 23))) as [n Hn].
  - split; reflexivity.
  - apply sample_derives; [done|]. vm_compute. reflexivity.
  - done.
  - eexists. rewrite Hn. split.
    + replace (length (sample_payloads (sample_view 23))) with 23 by (by vm_compute).
      reflexivity.
    + rewrite length_app, length_concat. by vm_compute.
Defined.

(** ** The join with the master table *)

Lemma reconcile_payload opts lookup r o :
  Batch.reconcile opts lookup r = Ok o →
  match o with
  | Some p => joined lookup r = true ∧ pl_id p = rec_id r
  | None => joined lookup r = false
  end.
Proof.
  unfold Batch.reconcile, joined.
  destruct (Batch.linked_master lookup r) as [mtb|]; [|by intros [= <-]].
  destruct (Batch.derive opts r mtb) as [p|e] eqn:Hp; [|done].
  intros [= <-]. split; [done|].
  by destruct (batch_derive_inv opts r mtb p Hp) as (? & ? & ? & _ & _ & _ & ? & _).
Qed.

Lemma build_payloads_ids opts lookup records : ∀ acc ps,
  Batch.build_payloads opts lookup records acc = Ok ps →
  pl_id <$> ps =
    ((pl_id <$> acc) ++ (rec_id <$> filter (λ r, joined lookup r = true) records))%list.
Proof.
  induction records as [|r records IH]; intros acc ps.
  - intros [= <-]. by rewrite app_nil_r.
  - cbn [Batch.build_payloads].
    destruct (Batch.reconcile opts lookup r) as [o|e] eqn:Hr; [|done].
    cbn [mbind result_bind]. intros Hps%IH. rewrite Hps.
    apply reconcile_payload in Hr. destruct o as [p|].
    + destruct Hr as [Hj Hid]. rewrite filter_cons_True by done.
      rewrite fmap_app. cbn [fmap list_fmap]. by rewrite Hid, <- app_assoc.
    + rewrite filter_cons_False; [done|]. by rewrite Hr.
Qed.

(** X13. When the loop over the view ends without an exception, there is
    one payload for each record that is joined to a master record and none
    for the others; the payloads are in the order of the view and each
    carries the identifier of its record. *)
Theorem payloads_follow_the_view opts lookup records ps :
  Batch.build_payloads opts lookup records [] = Ok ps →
  pl_id <$> ps = rec_id <$> filter (λ r, joined lookup r = true) records ∧
  length ps ≤ length records.
Proof.
  intros Hps%build_payloads_ids. cbn in Hps. split; [done|].
  apply (f_equal length) in Hps. rewrite !length_fmap in Hps. rewrite Hps.
  apply length_filter.
Qed.

Lemma sample_payloads_built records :
  is_ok (sample_derivation records) = true →
  Batch.build_payloads sample_options (Batch.mtb_lookup [sample_master]) records [] =
    Ok (sample_payloads records).
Proof.
  unfold sample_payloads, sample_derivation, sample_options.
  destruct (Batch.getSelectOptions _ _) as [opts|]; cbn [mbind result_bind ok_or]; [|done].
  by destruct (Batch.build_payloads _ _ _ _).
Qed.

(** On the sample data, with an unlinked record between two linked ones. *)
Lemma payloads_follow_the_view_witness :
  pl_id <$>
    sample_payloads
      [sample_record (VStr "Almond-z450") 0; orphan_record;
       sample_record (VStr "Almond-nb175") 2] =
  [VStr "rec0"; VStr "rec2"].
Proof.
  destruct (payloads_follow_the_view sample_options (Batch.mtb_lookup [sample_master])
              [sample_record (VStr "Almond-z450") 0; orphan_record;
               sample_record (VStr "Almond-nb175") 2]
              (sample_payloads
                 [sample_record (VStr "Almond-z450") 0; orphan_record;
                  sample_record (VStr "Almond-nb175") 2])) as [Hids _].
  - apply sample_payloads_built. by vm_compute.
  - rewrite Hids. by vm_compute.
Defined.

Lemma map_get_app {V : Type} (l1 l2 : list (value * V)) (k : value) :
  map_get (l1 ++ l2) k =
    match map_get l2 k with Some v => Some v | None => map_get l1 k end.
Proof.
  induction l1 as [|[k' v] l1 IH]; cbn [app map_get]; [by destruct (map_get l2 k)|].
  rewrite IH. by destruct (map_get l2 k).
Qed.

Lemma map_get_none {V : Type} (l : list (value * V)) (k : value) :
  (∀ e, e ∈ l → same_value_zero e.1 k = false) → map_get l k = None.
Proof.
  induction l as [|[k' v] l IH]; intros Hall; [done|]. cbn [map_get].
  rewrite IH by (intros e He; apply Hall; by right).
  pose proof (Hall (k', v)) as Hk. cbn [fst] in Hk. rewrite Hk; [done|by left].
Qed.

(** X14. When several master records have the base product identifier a
    record links to, the batch handler joins the record to the last of them. *)
Theorem last_master_wins (before after : list record) (m r : record) :
  let link := get (rec_fields r) "linkedBaseProductId" in
  truthy link = true →
  same_value_zero (get (rec_fields m) "baseProductId") link = true →
  (∀ m', m' ∈ after → same_value_zero (get (rec_fields m') "baseProductId") link = false) →
  Batch.linked_master (Batch.mtb_lookup (before ++ m :: after)) r = Some (rec_fields m).
Proof.
  cbv zeta. intros Htruthy Hkey Hafter. unfold Batch.linked_master, Batch.mtb_lookup.
  rewrite Htruthy. cbn [negb]. rewrite fmap_app, map_get_app, fmap_cons. cbn [map_get].
  rewrite map_get_none; [by rewrite Hkey|].
  intros [k v] He. apply list_elem_of_fmap in He as (m' & Heq & Hm').
  injection Heq as -> ->. by apply Hafter.
Qed.

(** On the sample data, with two master records for the same product
    followed by a master record of another product. *)
Lemma last_master_wins_witness :
  Batch.linked_master
    (Batch.mtb_lookup ([sample_master] ++ sample_master_again :: [cashew_master]))
    (sample_record (VStr "Almond-z450") 1) = Some (rec_fields sample_master_again).
Proof.
  apply (last_master_wins [sample_master] [cashew_master] sample_master_again
           (sample_record (VStr "Almond-z450") 1)).
  - reflexivity.
  - reflexivity.
  - intros m' ->%list_elem_of_singleton. reflexivity.
Defined.

(** X15. A link that is an array or an object, such as the list of record
    identifiers of a linked-record field, is never a key of the lookup: the
    record is skipped by both batch handlers, whatever the master table
    holds. *)
Theorem reference_link_never_joins opts lookup r :
  is_reference (get (rec_fields r) "linkedBaseProductId") = true →
  Batch.reconcile opts lookup r = Ok None ∧ BatchText.reconcile opts lookup r = Ok None.
Proof.
  intros Href.
  assert (map_get lookup (get (rec_fields r) "linkedBaseProductId") = None) as Hnone.
  { apply map_get_none. intros [k v] _. cbn [fst].
    destruct (get (rec_fields r) "linkedBaseProductId"); try done; by destruct k. }
  unfold Batch.reconcile, BatchText.reconcile, Batch.linked_master, BatchText.linked_master.
  rewrite Hnone. by destruct (negb _).
Qed.

(** On the sample data, for a record linked by a list of identifiers. *)
Lemma reference_link_never_joins_witness :
  Batch.reconcile sample_options (Batch.mtb_lookup [sample_master]) array_linked_record =
    Ok None.
Proof.
  apply (reference_link_never_joins sample_options (Batch.mtb_lookup [sample_master])
           array_linked_record).
  reflexivity.
Defined.

(** ** The fields of a payload *)

Lemma batch_derive_fields opts r mtb p :
  Batch.derive opts r mtb = Ok p →
  ∃ name names,
    get (rec_fields r) "internalName" = VStr name ∧
    Batch.allergens mtb = Ok names ∧
    pl_id p = rec_id r ∧
    ∀ k, k ∈ shared_fields →
      pl_fields p !! k =
        if decide (k = "sellingPrice") then
          Some (Batch.variant_rule (variant_suffix name) mtb).1.2
        else if decide (k = "weightGrams") then
          Some (Batch.variant_rule (variant_suffix name) mtb).2
        else if decide (k = "allergens") then Some (VArr (option_name <$> names))
        else if decide (k = "imageUrl") then
          Some (VStr ("/images/" +:+ to_string (get (rec_fields r) "sptId") +:+ ".jpg"))
        else if decide (k = "marketingName") then Some (VStr name)
        else if decide (k ∈ flag_names) then Some (js_or (get mtb k) (VBool false))
        else Some (get mtb k).
Proof.
  unfold Batch.derive. intros H.
  destruct (get (rec_fields r) "internalName") as [| | | |name| |] eqn:Hname;
    try discriminate H.
  cbn [string_receiver mbind result_bind] in H.
  destruct (Batch.variant_rule (variant_suffix name) mtb)
    as [[packageSize price] weight] eqn:Hrule.
  rewrite !normalize_nullable in H. cbn [mbind result_bind] in H.
  step_ok H group.
  change (Batch.normalize (VStr ?s)) with (Batch.normalize (nullable (Some s))) in H.
  rewrite normalize_nullable in H. cbn [mbind result_bind default] in H.
  step_ok H groupName. step_ok H country. step_ok H names.
  injection H as <-. exists name, names. rewrite Hrule. cbn [pl_id pl_fields fst snd].
  split; [done|]. split; [done|]. split; [done|].
  intros k Hk. unfold shared_fields, flag_names in Hk. cbn [app] in Hk.
  rewrite !elem_of_cons, elem_of_nil in Hk.
  destruct Hk as [->|[->|[->|[->|[->|[->|[->|[->|[->|[->|[->|[->|[->|[->|[]]]]]]]]]]]]]]];
    lookup_payload; reflexivity.
Qed.

Lemma text_derive_fields opts r mtb q :
  BatchText.derive opts r mtb = Ok q →
  ∃ name names,
    get (rec_fields r) "internalName" = VStr name ∧
    BatchText.allergens mtb = Ok names ∧
    pl_id q = rec_id r ∧
    ∀ k, k ∈ shared_fields →
      pl_fields q !! k =
        if decide (k = "sellingPrice") then
          Some (BatchText.variant_rule (variant_suffix name) mtb).1.2
        else if decide (k = "weightGrams") then
          Some (BatchText.variant_rule (variant_suffix name) mtb).2
        else if decide (k = "allergens") then Some (VArr (option_name <$> names))
        else if decide (k = "imageUrl") then
          Some (VStr ("/images/" +:+ to_string (get (rec_fields r) "sptId") +:+ ".jpg"))
        else if decide (k = "marketingName") then Some (VStr name)
        else if decide (k ∈ flag_names) then Some (js_or (get mtb k) (VBool false))
        else Some (get mtb k).
Proof.
  unfold BatchText.derive. intros H.
  destruct (get (rec_fields r) "internalName") as [| | | |name| |] eqn:Hname;
    try discriminate H.
  cbn [string_receiver mbind result_bind] in H.
  destruct (BatchText.variant_rule (variant_suffix name) mtb)
    as [[packageSize price] weight] eqn:Hrule.
  step_ok H group. step_ok H names.
  injection H as <-. exists name, names. rewrite Hrule. cbn [pl_id pl_fields fst snd].
  split; [done|]. split; [done|]. split; [done|].
  intros k Hk. unfold shared_fields, flag_names in Hk. cbn [app] in Hk.
  rewrite !elem_of_cons, elem_of_nil in Hk.
  destruct Hk as [->|[->|[->|[->|[->|[->|[->|[->|[->|[->|[->|[->|[->|[->|[]]]]]]]]]]]]]]];
    repeat first
      [ rewrite lookup_insert_eq
      | rewrite lookup_insert_ne by done
      | rewrite lookup_reference_ne by done ];
    try reflexivity.
  all: destruct (BatchText.lookup_option opts "packageSize" packageSize);
    rewrite lookup_insert_ne by done; reflexivity.
Qed.

Lemma single_derive_flags internalName sptId mtb u flag :
  Single.derive_updates internalName sptId mtb = Ok u → flag ∈ flag_names →
  u !! flag = Some (get mtb flag) ∧ u !! "updateRecord" = Some (VBool false) ∧
  u !! "marketingName" = Some internalName.
Proof.
  unfold Single.derive_updates. intros H Hflag.
  destruct internalName as [| | | |name| |]; try discriminate H.
  cbn [string_receiver mbind result_bind] in H.
  destruct (Single.variant_rule (variant_suffix name) mtb) as [[packageSize price] weight].
  step_ok H group. step_ok H names. injection H as <-.
  unfold flag_names in Hflag. rewrite !elem_of_cons, elem_of_nil in Hflag.
  destruct Hflag as [->|[->|[->|[->|[->|[->|[]]]]]]];
    repeat split; by simplify_map_eq.
Qed.

(** X16. Both batch handlers send each of the six flags as the value of the
    master record when that value is truthy and as [false] otherwise, so a
    flag missing from the master record is cleared.  The single-record
    handler copies the value as it is, [undefined] included. *)
Theorem flags_default_to_false opts r mtb flag :
  flag ∈ flag_names →
  let defaulted := if truthy (get mtb flag) then get mtb flag else VBool false in
  (∀ p, Batch.derive opts r mtb = Ok p → pl_fields p !! flag = Some defaulted) ∧
  (∀ q, BatchText.derive opts r mtb = Ok q → pl_fields q !! flag = Some defaulted) ∧
  (∀ internalName sptId u,
     Single.derive_updates internalName sptId mtb = Ok u → u !! flag = Some (get mtb flag)).
Proof.
  intros Hflag. cbv zeta.
  assert (flag ∈ shared_fields) as Hshared.
  { unfold shared_fields. apply elem_of_app. by right. }
  repeat split.
  - intros p (name & names & _ & _ & _ & Hfields)%batch_derive_fields.
    rewrite (Hfields flag Hshared).
    unfold flag_names in Hflag. rewrite !elem_of_cons, elem_of_nil in Hflag.
    by destruct Hflag as [->|[->|[->|[->|[->|[->|[]]]]]]].
  - intros q (name & names & _ & _ & _ & Hfields)%text_derive_fields.
    rewrite (Hfields flag Hshared).
    unfold flag_names in Hflag. rewrite !elem_of_cons, elem_of_nil in Hflag.
    by destruct Hflag as [->|[->|[->|[->|[->|[->|[]]]]]]].
  - intros internalName sptId u Hu.
    by destruct (single_derive_flags internalName sptId mtb u flag Hu Hflag).
Qed.

(** On the sample data: [isOrganic] is set, [isRaw] is missing. *)
Lemma flags_default_to_false_witness :
  ∃ p,
    Batch.derive ∅ (sample_record (VStr "Almond-z450") 1) (rec_fields sample_master) = Ok p ∧
    pl_fields p !! "isOrganic" = Some (VBool true) ∧
    pl_fields p !! "isRaw" = Some (VBool false).
Proof.
  destruct (is_ok_ex (Batch.derive ∅ (sample_record (VStr "Almond-z450") 1)
                        (rec_fields sample_master))) as [p Hp]; [by vm_compute|].
  exists p. split; [exact Hp|]. split.
  - destruct (flags_default_to_false ∅ (sample_record (VStr "Almond-z450") 1)
                (rec_fields sample_master) "isOrganic") as [Hb _].
    + apply elem_of_cons. by left.
    + exact (Hb p Hp).
  - destruct (flags_default_to_false ∅ (sample_record (VStr "Almond-z450") 1)
                (rec_fields sample_master) "isRaw") as [Hb _].
    + apply elem_of_cons. right. apply elem_of_cons. by left.
    + exact (Hb p Hp).
Defined.

(** X17. The two batch handlers agree on everything but the select fields:
    for a record and a master record for which both derive a payload, the
    payloads carry the same record identifier and the same selling price,
    weight, allergens, supplier name, ingredients, supplier URL, image path,
    marketing name and flags, whatever the option maps. *)
Theorem batch_handlers_agree opts opts' r mtb p q :
  Batch.derive opts r mtb = Ok p → BatchText.derive opts' r mtb = Ok q →
  pl_id p = pl_id q ∧ ∀ k, k ∈ shared_fields → pl_fields p !! k = pl_fields q !! k.
Proof.
  intros (name & names & Hname & Hnames & Hid & Hfields)%batch_derive_fields
         (name' & names' & Hname' & Hnames' & Hid' & Hfields')%text_derive_fields.
  assert (name' = name) as -> by congruence.
  assert (names' = names) as ->.
  { change (BatchText.allergens mtb) with (Batch.allergens mtb) in Hnames'. congruence. }
  split; [congruence|]. intros k Hk. by rewrite Hfields, Hfields'.
Qed.

(** On the sample data, with the sample options on one side and none on
    the other. *)
Lemma batch_handlers_agree_witness :
  ∃ p q,
    Batch.derive sample_options (sample_record (VStr "Almond-z450") 1)
      (rec_fields sample_master) = Ok p ∧
    BatchText.derive ∅ (sample_record (VStr "Almond-z450") 1) (rec_fields sample_master)
      = Ok q ∧
    pl_fields p !! "allergens" = pl_fields q !! "allergens".
Proof.
  destruct (is_ok_ex (Batch.derive sample_options (sample_record (VStr "Almond-z450") 1)
                        (rec_fields sample_master))) as [p Hp]; [by vm_compute|].
  destruct (is_ok_ex (BatchText.derive ∅ (sample_record (VStr "Almond-z450") 1)
                        (rec_fields sample_master))) as [q Hq]; [by vm_compute|].
  exists p, q. split; [exact Hp|]. split; [exact Hq|].
  destruct (batch_handlers_agree _ _ _ _ p q Hp Hq) as [_ Hsame].
  apply Hsame. do 2 (apply elem_of_cons; right). apply elem_of_cons. by left.
Defined.

(** X24. The image path of a payload is built from the short identifier of
    the record: "/images/<id>.jpg" for a text, and "/images/undefined.jpg"
    for a record that has none.  The marketing name is the internal name. *)
Theorem image_path_of_record opts r mtb p :
  Batch.derive opts r mtb = Ok p →
  (∀ s, get (rec_fields r) "sptId" = VStr s →
     pl_fields p !! "imageUrl" = Some (VStr ("/images/" +:+ s +:+ ".jpg"))) ∧
  (rec_fields r !! "sptId" = None →
     pl_fields p !! "imageUrl" = Some (VStr "/images/undefined.jpg")) ∧
  pl_fields p !! "marketingName" = Some (get (rec_fields r) "internalName").
Proof.
  intros (name & names & Hname & _ & _ & Hfields)%batch_derive_fields.
  assert ("imageUrl" ∈ shared_fields) as Himg.
  { unfold shared_fields. apply elem_of_app. left. do 6 (apply elem_of_cons; right).
    apply elem_of_cons. by left. }
  assert ("marketingName" ∈ shared_fields) as Hmark.
  { unfold shared_fields. apply elem_of_app. left. do 7 (apply elem_of_cons; right).
    apply elem_of_cons. by left. }
  rewrite (Hfields _ Himg), (Hfields _ Hmark), Hname. repeat split.
  - by intros s ->.
  - unfold get. by intros ->.
Qed.

(** On the sample data, for a record without a short identifier. *)
Lemma image_path_of_record_witness :
  ∃ p,
    Batch.derive ∅ orphan_record (rec_fields sample_master) = Ok p ∧
    pl_fields p !! "imageUrl" = Some (VStr "/images/undefined.jpg").
Proof.
  destruct (is_ok_ex (Batch.derive ∅ orphan_record (rec_fields sample_master)))
    as [p Hp]; [by vm_compute|].
  exists p. split; [exact Hp|].
  destruct (image_path_of_record ∅ orphan_record (rec_fields sample_master) p Hp)
    as (_ & Hnone & _).
  by apply Hnone.
Defined.

(** ** The allergen pattern *)

Lemma star_some {A} (p : ascii → bool) (k : mstate → option A) (aft : list ascii) :
  ∀ bef n cap a,
  star p bef aft n cap k = Some a →
  ∃ run rest : list ascii, aft = (run ++ rest)%list ∧ forallb p run = true ∧
    k (MState (rev run ++ bef)%list rest (n + length run) cap) = Some a.
Proof.
  induction aft as [|c aft IH]; intros bef n cap a; cbn [star].
  - intros Hk. exists [], []. by rewrite Nat.add_0_r.
  - destruct (p c) eqn:Hc.
    + destruct (star p (c :: bef) aft (S n) cap k) as [a'|] eqn:Hstar.
      * intros [= <-]. apply IH in Hstar as (run & rest & -> & Hrun & Hk).
        exists (c :: run), rest. cbn [forallb rev length app].
        rewrite Hc, Hrun, <- app_assoc, Nat.add_succ_r. by repeat split.
      * intros Hk. exists [], (c :: aft). by rewrite Nat.add_0_r.
    + intros Hk. exists [], (c :: aft). by rewrite Nat.add_0_r.
Qed.

(** A match of the allergen pattern: a capital, then one or more capitals
    or white-space characters. *)
Lemma exec_allergen (bef aft m : list ascii) cap :
  exec_at allergen_pattern bef aft = Some (m, cap) →
  ∃ c r, m = c :: r ∧ is_upper c = true ∧ r ≠ [] ∧ forallb is_upper_or_space r = true ∧
         ∃ rest, aft = (m ++ rest)%list.
Proof.
  unfold exec_at, allergen_pattern. cbn [rmatch].
  destruct (at_word_boundary _); [|done].
  destruct aft as [|c aft]; [done|]. rewrite step_class_cons.
  destruct (is_upper c) eqn:Hc; [|done].
  destruct aft as [|c2 aft]; [done|]. rewrite step_class_cons.
  destruct (is_upper_or_space c2) eqn:Hc2; [|done].
  cbn [before after consumed capture].
  intros (run & rest & -> & Hrun & Hk)%star_some. cbn [before after consumed capture] in Hk.
  destruct (at_word_boundary _); [|done]. injection Hk as <- _.
  exists c, (c2 :: run). cbn [forallb]. rewrite Hc2, Hrun.
  rewrite take_app_length. repeat split; [done..|]. by exists rest.
Qed.

Lemma scan_Forall (P : list ascii → Prop) (r : regex) :
  (∀ bef aft m cap, exec_at r bef aft = Some (m, cap) → P m) →
  ∀ aft bef skip, Forall P (scan r bef aft skip).
Proof.
  intros Hexec. induction aft as [|c aft IH]; intros bef skip.
  - destruct skip; cbn [scan]; [|done].
    destruct (exec_at r bef []) as [[m cap]|] eqn:E; [|done].
    constructor; [by eapply Hexec|done].
  - destruct skip; cbn [scan]; [|apply IH].
    destruct (exec_at r bef (c :: aft)) as [[m cap]|] eqn:E; [|apply IH].
    constructor; [by eapply Hexec|apply IH].
Qed.

Lemma scan_no_capitals (aft : list ascii) : ∀ bef skip,
  forallb (λ c, negb (is_upper c)) aft = true → scan allergen_pattern bef aft skip = [].
Proof.
  induction aft as [|c aft IH]; intros bef skip Hno.
  - destruct skip; cbn [scan]; [|done].
    destruct (exec_at allergen_pattern bef []) as [[m cap]|] eqn:E; [|done].
    apply exec_allergen in E as (c & r & -> & _ & _ & _ & rest & Hrest). done.
  - cbn [forallb] in Hno. apply andb_true_iff in Hno as [Hc Hno].
    destruct skip; cbn [scan]; [|by apply IH].
    destruct (exec_at allergen_pattern bef (c :: aft)) as [[m cap]|] eqn:E; [|by apply IH].
    apply exec_allergen in E as (c' & r & -> & Hc' & _ & _ & rest & Hrest).
    injection Hrest as <- _. by rewrite Hc' in Hc.
Qed.

(** X18. Ingredients without a capital letter A-Z give no allergen, and so
    do missing or empty ingredients: the three handlers then write the empty
    list. *)
Theorem no_capitals_no_allergens (mtb : gmap string value) :
  match get mtb "Ingredients" with
  | VStr s => no_capitals s = true
  | v => truthy v = false
  end →
  Batch.allergens mtb = Ok [] ∧ BatchText.allergens mtb = Ok [] ∧
  Single.allergens mtb = Ok [].
Proof.
  intros Hingr.
  assert (∀ s, no_capitals s = true → match_all allergen_pattern s = None) as Hnone.
  { intros s Hs. unfold match_all. by rewrite scan_no_capitals. }
  unfold Batch.allergens, BatchText.allergens, Single.allergens, js_or.
  destruct (get mtb "Ingredients") as [| |b|n|s|l|o]; cbn [truthy] in *;
    try discriminate Hingr; try rewrite Hingr; cbn [string_receiver mbind result_bind].
  1-4: by rewrite (Hnone "" eq_refl).
  destruct (negb (String.eqb s "")); cbn [string_receiver mbind result_bind].
  - by rewrite (Hnone s Hingr).
  - by rewrite (Hnone "" eq_refl).
Qed.

Lemma no_capitals_no_allergens_witness :
  Batch.allergens {[ "Ingredients" := VStr "almonds, sea salt (2%)" ]} = Ok [].
Proof.
  apply (no_capitals_no_allergens {[ "Ingredients" := VStr "almonds, sea salt (2%)" ]}).
  reflexivity.
Defined.

Lemma trim_start_snoc (l : list ascii) (c : ascii) :
  is_space c = false → ∃ l', trim_start (l ++ [c]) = (l' ++ [c])%list.
Proof.
  intros Hc. induction l as [|x l IH]; cbn [app trim_start].
  - rewrite Hc. by exists [].
  - destruct (is_space x); [done|]. by exists (x :: l).
Qed.

Lemma trim_list_cons (c : ascii) (r : list ascii) :
  is_space c = false → ∃ r', trim_list (c :: r) = c :: r'.
Proof.
  intros Hc. unfold trim_list. cbn [trim_start rev]. rewrite Hc. cbn [rev].
  destruct (trim_start_snoc (rev r) c Hc) as [l' ->]. exists (rev l').
  by rewrite rev_app_distr.
Qed.

Lemma upper_not_space c : is_upper c = true → is_space c = false.
Proof. destruct c as [[] [] [] [] [] [] [] []]; vm_compute; congruence. Qed.

Lemma upper_lower_word c :
  is_upper c = true → is_word (lower_char c) = true ∧ upper_char (lower_char c) = c.
Proof. destruct c as [[] [] [] [] [] [] [] []]; vm_compute; intros; by split. Qed.

(** The name of a match: its capital, then lower-case text; the two ways of
    capitalising give the same name. *)
Lemma allergen_name_of_match (m : list ascii) :
  (∃ c r, m = c :: r ∧ is_upper c = true) →
  Single.allergen_name (string_of_list_ascii m) =
    Batch.allergen_name (string_of_list_ascii m) ∧
  capitalised (Batch.allergen_name (string_of_list_ascii m)).
Proof.
  intros (c & r & -> & Hc).
  unfold Single.allergen_name, Batch.allergen_name, trim.
  rewrite list_ascii_of_string_of_list_ascii.
  destruct (trim_list_cons c r (upper_not_space c Hc)) as [r' ->].
  cbn [string_of_list_ascii toLowerCase capitalize_word_start capitalize_first].
  destruct (upper_lower_word c Hc) as [-> ->]. split; [done|].
  eexists _, _. split; [done|]. split; [done|]. apply lower_idem.
Qed.

Lemma allergen_names_agree (ms : list (list ascii)) :
  Forall (λ m, ∃ c r, m = c :: r ∧ is_upper c = true) ms →
  Single.allergen_name <$> (string_of_list_ascii <$> ms) =
    Batch.allergen_name <$> (string_of_list_ascii <$> ms) ∧
  Forall capitalised (Batch.allergen_name <$> (string_of_list_ascii <$> ms)).
Proof.
  induction 1 as [|m ms Hm _ [IH1 IH2]]; [done|]. cbn [fmap list_fmap].
  destruct (allergen_name_of_match m Hm) as [-> ?]. split; [by f_equal|].
  by constructor.
Qed.

(** X19. Whatever the ingredients, every allergen name is a capital A-Z
    followed by lower-case text, and the single-record handler derives the
    same names as the batch handlers, although it capitalises them in
    another way. *)
Theorem allergen_names_are_capitalised (mtb : gmap string value) :
  Single.allergens mtb = Batch.allergens mtb ∧
  BatchText.allergens mtb = Batch.allergens mtb ∧
  ∀ names, Batch.allergens mtb = Ok names → Forall capitalised names.
Proof.
  assert (∀ s, Forall (λ m, ∃ c r, m = c :: r ∧ is_upper c = true)
                 (scan allergen_pattern [] (list_ascii_of_string s) 0)) as Hscan.
  { intros s. apply scan_Forall. intros bef aft m cap Hm.
    apply exec_allergen in Hm as (c & r & -> & Hc & _). by exists c, r. }
  assert (∀ s,
    Single.allergen_name <$> default [] (match_all allergen_pattern s) =
      Batch.allergen_name <$> default [] (match_all allergen_pattern s) ∧
    Forall capitalised (Batch.allergen_name <$> default [] (match_all allergen_pattern s)))
    as Hnames.
  { intros s. unfold match_all. specialize (Hscan s).
    destruct (scan allergen_pattern [] (list_ascii_of_string s) 0) as [|m ms]; [done|].
    cbn [default]. by apply allergen_names_agree. }
  unfold Single.allergens, BatchText.allergens, Batch.allergens.
  destruct (string_receiver _ _ _) as [s|e]; cbn [mbind result_bind]; [|done].
  destruct (Hnames s) as [-> Hcap]. repeat split. by intros names [= <-].
Qed.

Lemma allergen_names_are_capitalised_witness :
  Forall capitalised ["Soya"; "Milk"].
Proof.
  destruct (allergen_names_are_capitalised (rec_fields sample_master)) as (_ & _ & Hcap).
  apply Hcap. by vm_compute.
Defined.

(** ** The earlier batch handler *)

Lemma text_write_batches fuel patch ps i st :
  BatchText.write_batches fuel patch ps i st = Batch.write_batches fuel patch ps i st.
Proof. reflexivity. Qed.

(** X20. The earlier batch handler writes like the later one: its write
    calls are the first chunks of at most ten of its payloads, in order;
    all of them with status 200 when every call is accepted, and those up to
    the first call that is refused, with status 500, otherwise. *)
Theorem earlier_handler_writes pw w req ps :
  authorized pw req → derives_text w ps →
  ∃ o m,
    BatchText.handler pw w req = Some o ∧
    submitted o = take m (chunks ps) ∧
    ((∀ n b, patch_response w n b = Success ()) →
       submitted o = chunks ps ∧ status (reply o) = 200) ∧
    (∀ k b e,
       chunks ps !! k = Some b → patch_response w k b = Failed e →
       (∀ j c, j < k → chunks ps !! j = Some c → patch_response w j c = Success ()) →
       submitted o = take (S k) (chunks ps) ∧ status (reply o) = 500).
Proof.
  intros [Hm Hpw] (opts & rs & ms & Hopts & Hrs & Hne & Hms & Hps).
  unfold BatchText.handler, BatchText.try_block.
  rewrite Hm, Hpw, Hopts, Hrs, Hms, Hps. cbn [String.eqb negb].
  destruct rs as [|r rs]; [done|]. cbn [length Nat.eqb].
  rewrite text_write_batches, write_batches_total.
  match goal with |- context [write_chunks ?p ?cs ?st] => set (st0 := st) end.
  destruct (write_chunks_prefix (patch_response w) (chunks ps) st0) as [m Hm'].
  destruct (write_chunks (patch_response w) (chunks ps) st0) as [st res] eqn:Hrun.
  cbn [fst] in Hm'.
  exists (match res with
          | Ok _ => Outcome (Http 200 (MessageBody
                      ("Successfully processed and updated " +:+ pretty (length ps)
                         +:+ " records.") (log st))) (patches st)
          | Throw e => Outcome (Http 500 (FailureBody e (log (push ("ERROR: " +:+ e) st))))
                         (patches st)
          end), m.
  split; [by destruct res as [[]|e]|]. split; [by destruct res as [[]|e]|]. split.
  - intros Hok.
    destruct (write_chunks_ok (patch_response w) (chunks ps) st0) as (st' & Hrun' & Hp).
    { intros; apply Hok. }
    rewrite Hrun in Hrun'. injection Hrun' as -> ->. by rewrite Hp.
  - intros k b e Hk Hfail Hbefore.
    destruct (write_chunks_fail (patch_response w) (chunks ps) st0 k b e Hk Hfail Hbefore)
      as (st' & Hrun' & Hp & _).
    rewrite Hrun in Hrun'. injection Hrun' as -> ->. by rewrite Hp.
Qed.

Lemma sample_derives_text records patch :
  records ≠ [] → is_ok (sample_derivation_text records) = true →
  derives_text (sample_world records patch) (sample_payloads_text records).
Proof.
  unfold sample_payloads_text, sample_derivation_text. intros Hne Hok.
  destruct (BatchText.getSelectOptions _ _) as [opts|] eqn:Hopts; [|done].
  cbn [mbind result_bind] in *.
  destruct (BatchText.build_payloads _ _ _ _) as [ps|] eqn:Hps; [|done].
  by exists opts, records, [sample_master].
Qed.

(** On the sample view of 23 records, the second call refused. *)
Lemma earlier_handler_writes_witness :
  ∃ o,
    BatchText.handler (VStr "secret") (sample_world (sample_view 23) second_call_fails)
      sample_request = Some o ∧
    length (submitted o) = 2 ∧ status (reply o) = 500.
Proof.
  destruct (earlier_handler_writes (VStr "secret")
              (sample_world (sample_view 23) second_call_fails) sample_request
              (sample_payloads_text (sample_view 23))) as (o & m & Ho & _ & _ & Hfail).
  - split; reflexivity.
  - apply sample_derives_text; [done|]. by vm_compute.
  - exists o. split; [exact Ho|].
    destruct (lookup_lt_is_Some_2 (chunks (sample_payloads_text (sample_view 23))) 1)
      as [b Hb]; [vm_compute; lia|].
    destruct (Hfail 1 b "RATE_LIMIT" Hb eq_refl) as [-> ->].
    { intros j c Hj _. by replace j with 0 by lia. }
    split; [|done]. rewrite length_take. by vm_compute.
Defined.

(** ** The single-record handler *)

(** The [try] block sends nothing, or the fields derived from the first
    master record, once. *)
Lemma single_try_block_sent (w : Single.remote) (sptRecordId : value) :
  let id := to_string sptRecordId in
  let sent := (Single.try_block w sptRecordId).1 in
  (sent = [] ∧ is_ok (Single.try_block w sptRecordId).2 = false) ∨
  ∃ sptRecord mtbRecord others updates,
    Single.spt_record w id = Success sptRecord ∧
    truthy (get (rec_fields sptRecord) "linkedBaseProductId") = true ∧
    Single.mtb_records w (to_string (get (rec_fields sptRecord) "linkedBaseProductId")) =
      Success (mtbRecord :: others) ∧
    Single.derive_updates (get (rec_fields sptRecord) "internalName")
      (get (rec_fields sptRecord) "sptId") (rec_fields mtbRecord) = Ok updates ∧
    sent = [(id, updates)] ∧
    is_ok (Single.try_block w sptRecordId).2 =
      match Single.patch_record w id updates with Success _ => true | Failed _ => false end.
Proof.
  cbv zeta. unfold Single.try_block.
  destruct (Single.spt_record w _) as [sptRecord|e] eqn:Hspt; [|by left].
  destruct (truthy (get (rec_fields sptRecord) "linkedBaseProductId")) eqn:Hlink;
    cbn [negb]; [|by left].
  destruct (Single.mtb_records w _) as [[|mtbRecord others]|e] eqn:Hmtb; [by left| |by left].
  destruct (Single.derive_updates _ _ _) as [updates|e] eqn:Hupd; [|by left].
  right. exists sptRecord, mtbRecord, others, updates.
  by destruct (Single.patch_record w _ updates).
Qed.

(** X21. The single-record handler makes at most one PATCH call, for the
    record named in the request, and only once the request is a POST with a
    record identifier, the record was fetched and has a link, the master
    records were fetched and are not empty, and the fields were derived
    from the first of them.  The reply is 200 exactly when that call was
    made and accepted. *)
Theorem single_patch_needs_derivation (w : Single.remote) (request : Single.update_request) :
  let o := Single.handler w request in
  let id := to_string (Single.sptRecordId request) in
  (Single.up_patches o = [] ∨
   ∃ sptRecord mtbRecord others updates,
     Single.req_method request = "POST" ∧ truthy (Single.sptRecordId request) = true ∧
     Single.spt_record w id = Success sptRecord ∧
     truthy (get (rec_fields sptRecord) "linkedBaseProductId") = true ∧
     Single.mtb_records w (to_string (get (rec_fields sptRecord) "linkedBaseProductId")) =
       Success (mtbRecord :: others) ∧
     Single.derive_updates (get (rec_fields sptRecord) "internalName")
       (get (rec_fields sptRecord) "sptId") (rec_fields mtbRecord) = Ok updates ∧
     Single.up_patches o = [(id, updates)]) ∧
  (Single.up_status o = 200 ↔
     ∃ updates, Single.up_patches o = [(id, updates)] ∧
                Single.patch_record w id updates = Success ()).
Proof.
  cbv zeta. unfold Single.handler.
  destruct (String.eqb_spec (Single.req_method request) "POST") as [Hm|_]; cbn [negb].
  2:{ split; [by left|]. split; [done|]. by intros (? & ? & _). }
  destruct (truthy (Single.sptRecordId request)) eqn:Hid; cbn [negb].
  2:{ split; [by left|]. split; [done|]. by intros (? & ? & _). }
  destruct (single_try_block_sent w (Single.sptRecordId request))
    as [[Hsent Hres]|(r & m & others & u & Hr & Hlink & Hm' & Hu & Hsent & Hres)];
    cbv zeta in *;
    destruct (Single.try_block w (Single.sptRecordId request)) as [sent [[]|e]];
    cbn [fst snd is_ok Single.up_patches Single.up_status] in *; subst sent;
    try discriminate Hres.
  - split; [by left|]. split; [done|]. by intros (? & ? & _).
  - split; [right; by exists r, m, others, u|]. split; [intros _|done].
    exists u. split; [done|]. by destruct (Single.patch_record w _ u) as [[]|].
  - split; [right; by exists r, m, others, u|]. split; [done|].
    intros (u' & [= <-] & Hacc). by rewrite Hacc in Hres.
Qed.

(** On the sample remote: the first of the two master records is used. *)
Lemma single_patch_needs_derivation_witness :
  ∃ updates,
    let o := Single.handler sample_remote (Single.UpdateRequest "POST" (VStr "recA")) in
    Single.up_patches o = [("recA", updates)] ∧
    Single.up_status o = 200 ∧
    updates !! "sellingPrice" = Some (VNum 12).
Proof.
  destruct (single_patch_needs_derivation sample_remote
              (Single.UpdateRequest "POST" (VStr "recA"))) as [Hsent Hok].
  cbv zeta in *.
  destruct Hsent as [Hnone|(_ & _ & _ & updates & _ & _ & _ & _ & _ & _ & Hsent)].
  { apply (f_equal length) in Hnone. by vm_compute in Hnone. }
  exists updates. split; [exact Hsent|]. split.
  - apply Hok. by exists updates.
  - assert (patched_field
              (Single.handler sample_remote (Single.UpdateRequest "POST" (VStr "recA")))
              "sellingPrice" = Some (VNum 12)) as Hprice by (by vm_compute).
    unfold patched_field in Hprice. by rewrite Hsent in Hprice.
Defined.

(** X22. What the batch handler skips is an error for the single-record
    handler.  A record without a link ends the single-record update with
    status 500 and a message that says so, and a link for which no master
    record comes back ends it with status 500 and a message that names the
    link; no PATCH call is made in either case.  So do a failed fetch of the
    record and a failed fetch of the master records. *)
Theorem single_record_errors (w : Single.remote) (request : Single.update_request) :
  Single.req_method request = "POST" → truthy (Single.sptRecordId request) = true →
  let id := to_string (Single.sptRecordId request) in
  let failed message :=
    Single.handler w request = Single.UpdateOutcome 500 (Single.ErrorOnly message) [] in
  (∀ text, Single.spt_record w id = Failed text →
     failed ("Failed to fetch SPT record: " +:+ text)) ∧
  (∀ r, Single.spt_record w id = Success r →
     let link := get (rec_fields r) "linkedBaseProductId" in
     (truthy link = false →
        failed "The 'linkedBaseProductId' field is empty in the SPT record.") ∧
     (∀ text, truthy link = true → Single.mtb_records w (to_string link) = Failed text →
        failed ("Failed to fetch MTB record: " +:+ text)) ∧
     (truthy link = true → Single.mtb_records w (to_string link) = Success [] →
        failed ("No matching record found in MTB for baseProductId: " +:+ to_string link))).
Proof.
  intros Hm Hid. cbv zeta. unfold Single.handler, Single.try_block.
  rewrite Hm, Hid. cbn [String.eqb negb]. split.
  - by intros text ->.
  - intros r ->. repeat split.
    + by intros ->.
    + by intros text -> ->.
    + by intros -> ->.
Qed.

(** On the sample remote without master records. *)
Lemma single_record_errors_witness :
  Single.handler sample_remote_no_master (Single.UpdateRequest "POST" (VStr "recA")) =
    Single.UpdateOutcome 500
      (Single.ErrorOnly "No matching record found in MTB for baseProductId: almond") [].
Proof.
  destruct (single_record_errors sample_remote_no_master
              (Single.UpdateRequest "POST" (VStr "recA")) eq_refl eq_refl) as [_ Hrec].
  destruct (Hrec (sample_record (VStr "Almond-z450") 5) eq_refl) as (_ & _ & Hnone).
  exact (Hnone eq_refl eq_refl).
Defined.

(** X23. Every PATCH of the single-record handler addresses the record of
    the request, unticks [updateRecord], sets the marketing name to the
    internal name of the record, which is a text, and sets the category to
    one of the three categories. *)
Theorem single_patch_content (w : Single.remote) (request : Single.update_request) id updates :
  (id, updates) ∈ Single.up_patches (Single.handler w request) →
  id = to_string (Single.sptRecordId request) ∧
  updates !! "updateRecord" = Some (VBool false) ∧
  (∃ name, updates !! "marketingName" = Some (VStr name)) ∧
  (∃ category, category ∈ categories ∧ updates !! "category" = Some (VStr category)).
Proof.
  unfold Single.handler.
  destruct (negb (String.eqb _ _)); [by intros ?%elem_of_nil|].
  destruct (negb (truthy _)); [by intros ?%elem_of_nil|].
  destruct (single_try_block_sent w (Single.sptRecordId request))
    as [[Hsent _]|(r & m & others & u & _ & _ & _ & Hu & Hsent & _)]; cbv zeta in *;
    destruct (Single.try_block w (Single.sptRecordId request)) as [sent [[]|e]];
    cbn [fst Single.up_patches] in *; subst sent; try (by intros ?%elem_of_nil).
  all: intros [= -> ->]%list_elem_of_singleton; split; [done|].
  all: destruct (single_derive_inv _ _ _ _ Hu) as (name & group & Hname & _ & _ & _ & Hcat).
  all: destruct (single_derive_flags _ _ _ _ "isOrganic" Hu) as (_ & Hupd & Hmark);
    [apply elem_of_cons; by left|].
  all: split; [done|]; split;
    [exists name; by rewrite Hmark, Hname
    |eexists; split; [apply single_category_total|exact Hcat]].
Qed.

(** On the sample remote. *)
Lemma single_patch_content_witness :
  ∃ updates,
    Single.up_patches (Single.handler sample_remote (Single.UpdateRequest "POST" (VStr "recA")))
      = [("recA", updates)] ∧
    updates !! "updateRecord" = Some (VBool false).
Proof.
  destruct (Single.up_patches
              (Single.handler sample_remote (Single.UpdateRequest "POST" (VStr "recA"))))
    as [|[id updates] [|]] eqn:Hsent;
    try (apply (f_equal length) in Hsent; by vm_compute in Hsent).
  assert (id = "recA") as ->.
  { apply (f_equal (λ l, fst <$> l)) in Hsent. vm_compute in Hsent. congruence. }
  exists updates. split; [done|].
  apply (single_patch_content sample_remote (Single.UpdateRequest "POST" (VStr "recA"))
           "recA" updates).
  rewrite Hsent. by apply list_elem_of_singleton.
Defined.
